(** * ImageSource (src/source/image_source.js): a shallow embedding

    The class [ImageSource] overlays one raster on one synthetic map tile.
    Its methods are embedded as state transformers over a [World]: the
    source object itself ([this]), the tile objects owned by the tile cache
    (a store addressed by reference, because [loadTile] and [_prepareImage]
    write to tiles that the cache also holds), the WebGL context reached
    through [map.painter.gl] (a log of the calls issued on it) and the
    events fired on the source.

    JavaScript numbers and the arithmetic on them are an interface
    ([JSNumber]); every general theorem holds for any implementation of
    it.  What image_source.js requires from other modules (extent,
    lng_lat, coordinate, util, the transform of the map) is an interface
    as well ([Collaborators], [Map]). *)

From Stdlib Require Import ZArith QArith Qround Qreduction Qminmax Lia.
From stdpp Require Import base option list strings pretty gmap fin_maps.

Local Open Scope string_scope.
Local Open Scope list_scope.

(** ** JavaScript numbers *)

Class JSNumber (number : Type) := {
  number_eq_dec :: EqDecision number;
  (** an integer literal of the program text: [0], [22], [512] *)
  lit : Z → number;
  (** [a - b] and [a * b] *)
  sub : number → number → number;
  mul : number → number → number;
  Math_floor : number → number;
  Math_round : number → number;
  (** [String(n)] *)
  String : number → string;
}.

(** A four-element array, the Flow type
    [[[number, number], [number, number], [number, number], [number, number]]]
    of [coordinates] and the arrays [Array.prototype.map] derives from it. *)
Definition Quad (A : Type) : Type := (A * A * A * A)%type.

Definition quad_map {A B} (f : A → B) (q : Quad A) : Quad B :=
  let '(a, b, c, d) := q in (f a, f b, f c, f d).

(** [q[i]]; [None] is JavaScript's [undefined] past the end. *)
Definition quad_nth {A} (q : Quad A) (i : nat) : option A :=
  let '(a, b, c, d) := q in
  match i with
  | 0 => Some a | 1 => Some b | 2 => Some c | 3 => Some d
  | _ => None
  end.

Section Model.
Context {number : Type} `{!JSNumber number}.

(** ** Values of the collaborating modules *)

(** ../geo/lng_lat *)
Record LngLat := mkLngLat { lng : number; lat : number }.

(** ../geo/coordinate: [column], [row] and [zoom] are the fields
    [setCoordinates] reads and writes. *)
Record Coordinate := mkCoordinate {
  column : number;
  row : number;
  zoom : number;
}.

(** ./tile_coord: [new TileCoord(z, x, y, w)]; [w] defaults to [0]. *)
Record TileCoord := mkTileCoord {
  tc_z : number;
  tc_x : number;
  tc_y : number;
  tc_w : number;
}.

Definition new_TileCoord (z x y : number) : TileCoord :=
  mkTileCoord z x y (lit 0).

(** Modelled from the spec: [TileCoord.prototype.toString] is defined in
    ./tile_coord, outside image_source.js.  The anchor is "an integer
    (zoom, column, row) triple" and a requested tile is claimed when its
    id "exactly equals the current anchor", once per wrapped copy of the
    world: the rendering identifies the triple and leaves the wrap index
    out. *)
Definition TileCoord_toString (c : TileCoord) : number * number * number :=
  (tc_z c, tc_x c, tc_y c).

(** @mapbox/point-geometry *)
Record Point := mkPoint { pt_x : number; pt_y : number }.

(** ../data/raster_bounds_array: a growable array of vertex records
    [(a_pos, a_texture_pos)]; [emplaceBack] appends one. *)
Record RasterBoundsVertex := mkVertex {
  a_pos_x : number;
  a_pos_y : number;
  a_texture_pos_x : number;
  a_texture_pos_y : number;
}.

Definition RasterBoundsArray : Type := list RasterBoundsVertex.

Definition new_RasterBoundsArray : RasterBoundsArray := [].

Definition emplaceBack (arr : RasterBoundsArray) (x y tx ty : number)
  : RasterBoundsArray :=
  arr ++ [mkVertex x y tx ty].

(** ** Collaborators *)

(** The modules [setCoordinates] calls into: the constant of
    ../data/extent, [LngLat.convert], [Coordinate.prototype.zoomTo] and
    [util.getCoordinatesCenter]. *)
Class Collaborators := {
  EXTENT : number;
  LngLat_convert : number * number → LngLat;
  zoomTo : Coordinate → number → Coordinate;
  getCoordinatesCenter : Quad Coordinate → Coordinate;
}.
Context `{!Collaborators}.

(** The host map: [map.transform.locationCoordinate] is the projection. *)
Record Transform := mkTransform { locationCoordinate : LngLat → Coordinate }.
Record Map := mkMap { transform : Transform }.

(** ** Rasters, GL resources and tiles *)

(** The classes [_prepareImage] tells apart with [instanceof]. *)
Inductive ImageClass :=
  | HTMLImageElement
  | HTMLVideoElement
  | HTMLCanvasElement
  | ImageData.

Record Image := mkImage { image_class : ImageClass; image_src : string }.

Definition instanceof (i : Image) (c : ImageClass) : bool :=
  match image_class i, c with
  | HTMLImageElement, HTMLImageElement
  | HTMLVideoElement, HTMLVideoElement
  | HTMLCanvasElement, HTMLCanvasElement
  | ImageData, ImageData => true
  | _, _ => false
  end.

(** Handles of GL objects. *)
Definition WebGLTexture : Type := nat.
Definition VertexBuffer : Type := nat.
Definition VertexArrayObject : Type := unit.

Inductive GLenum :=
  | TEXTURE_2D
  | TEXTURE_WRAP_S
  | TEXTURE_WRAP_T
  | TEXTURE_MIN_FILTER
  | TEXTURE_MAG_FILTER
  | CLAMP_TO_EDGE
  | LINEAR
  | RGBA
  | UNSIGNED_BYTE.

(** What [_prepareImage] and [setCoordinates] ask of the context: the
    [gl.*] calls of the source, the constructor [new VertexBuffer(gl, array)]
    and [VertexBuffer.prototype.destroy]. *)
Inductive GLCall :=
  | createTexture (t : WebGLTexture)
  | bindTexture (target : GLenum) (t : option WebGLTexture)
  | texParameteri (target pname param : GLenum)
  | texImage2D (target : GLenum) (level : Z)
      (internalformat format type : GLenum) (image : Image)
  | texSubImage2D (target : GLenum) (level xoffset yoffset : Z)
      (format type : GLenum) (image : Image)
  | new_VertexBuffer (b : VertexBuffer) (array : option RasterBoundsArray)
  | VertexBuffer_destroy (b : VertexBuffer).

(** The context: the calls issued so far and the next free handle. *)
Record GLContext := mkGL { gl_calls : list GLCall; gl_next : nat }.

Definition gl_call (c : GLCall) (g : GLContext) : GLContext :=
  mkGL (gl_calls g ++ [c]) (gl_next g).

Definition gl_alloc (g : GLContext) : nat * GLContext :=
  (gl_next g, mkGL (gl_calls g) (S (gl_next g))).

(** ./tile: the fields of a tile this class reads and writes.
    [tile.buckets] maps layer ids to buckets. *)
Record Tile := mkTile {
  tile_coord : TileCoord;
  tile_state : string;
  tile_texture : option WebGLTexture;
  tile_buckets : gmap string nat;
}.

Definition set_tile_state (v : string) (t : Tile) : Tile :=
  mkTile (tile_coord t) v (tile_texture t) (tile_buckets t).
Definition set_tile_texture (v : option WebGLTexture) (t : Tile) : Tile :=
  mkTile (tile_coord t) (tile_state t) v (tile_buckets t).
Definition set_tile_buckets (v : gmap string nat) (t : Tile) : Tile :=
  mkTile (tile_coord t) (tile_state t) (tile_texture t) v.

(** Tiles are objects owned by the tile cache; the source holds
    references to them. *)
Definition TileRef : Type := nat.

(** ** Plain objects: the options and the output of [serialize] *)

Inductive JSValue :=
  | undefined
  | JSString (s : string)
  | JSCoordinates (c : Quad (number * number)).

(** [o.k]: a missing property reads as [undefined]. *)
Definition get (o : gmap string JSValue) (k : string) : JSValue :=
  default undefined (o !! k).

Definition as_coordinates (v : JSValue) : option (Quad (number * number)) :=
  match v with JSCoordinates c => Some c | _ => None end.

Definition of_coordinates (c : option (Quad (number * number))) : JSValue :=
  match c with Some c => JSCoordinates c | None => undefined end.

Definition Dispatcher : Type := nat.
Definition Evented : Type := nat.

Inductive JSError :=
  | TypeError
  | Error (message : string).

(** ** The source object *)

(** The fields of the class, in the order of their declaration; a field
    that has not been assigned yet ([undefined]) is [None]. *)
Record ImageSource := mkImageSource {
  type_ : string;  (* [this.type] *)
  id_ : string;  (* [this.id] *)
  minzoom : number;
  maxzoom : number;
  tileSize : number;
  url : JSValue;
  coordinates : option (Quad (number * number));
  tiles : gmap string TileRef;  (* [this.tiles], keyed by [String(tile.coord.w)] *)
  options : gmap string JSValue;
  dispatcher : Dispatcher;
  eventedParent : Evented;  (* set by [setEventedParent] *)
  map_ : option Map;  (* [this.map]; [None] until [onAdd] *)
  texture : option WebGLTexture;
  textureLoaded : bool;
  image : option Image;
  centerCoord : option Coordinate;
  coord : option TileCoord;
  _boundsArray : option RasterBoundsArray;
  boundsBuffer : option VertexBuffer;
  boundsVAO : option VertexArrayObject;
}.

(** Field assignments [this.f = v]. *)
Definition set_minzoom (v : number) (s : ImageSource) : ImageSource :=
  mkImageSource (type_ s) (id_ s) v (maxzoom s) (tileSize s) (url s)
    (coordinates s) (tiles s) (options s) (dispatcher s) (eventedParent s)
    (map_ s) (texture s) (textureLoaded s) (image s) (centerCoord s)
    (coord s) (_boundsArray s) (boundsBuffer s) (boundsVAO s).

Definition set_maxzoom (v : number) (s : ImageSource) : ImageSource :=
  mkImageSource (type_ s) (id_ s) (minzoom s) v (tileSize s) (url s)
    (coordinates s) (tiles s) (options s) (dispatcher s) (eventedParent s)
    (map_ s) (texture s) (textureLoaded s) (image s) (centerCoord s)
    (coord s) (_boundsArray s) (boundsBuffer s) (boundsVAO s).

Definition set_url (v : JSValue) (s : ImageSource) : ImageSource :=
  mkImageSource (type_ s) (id_ s) (minzoom s) (maxzoom s) (tileSize s) v
    (coordinates s) (tiles s) (options s) (dispatcher s) (eventedParent s)
    (map_ s) (texture s) (textureLoaded s) (image s) (centerCoord s)
    (coord s) (_boundsArray s) (boundsBuffer s) (boundsVAO s).

Definition set_coordinates (v : option (Quad (number * number))) (s : ImageSource) : ImageSource :=
  mkImageSource (type_ s) (id_ s) (minzoom s) (maxzoom s) (tileSize s)
    (url s) v (tiles s) (options s) (dispatcher s) (eventedParent s)
    (map_ s) (texture s) (textureLoaded s) (image s) (centerCoord s)
    (coord s) (_boundsArray s) (boundsBuffer s) (boundsVAO s).

Definition set_tiles (v : gmap string TileRef) (s : ImageSource) : ImageSource :=
  mkImageSource (type_ s) (id_ s) (minzoom s) (maxzoom s) (tileSize s)
    (url s) (coordinates s) v (options s) (dispatcher s) (eventedParent s)
    (map_ s) (texture s) (textureLoaded s) (image s) (centerCoord s)
    (coord s) (_boundsArray s) (boundsBuffer s) (boundsVAO s).

Definition set_map (v : option Map) (s : ImageSource) : ImageSource :=
  mkImageSource (type_ s) (id_ s) (minzoom s) (maxzoom s) (tileSize s)
    (url s) (coordinates s) (tiles s) (options s) (dispatcher s)
    (eventedParent s) v (texture s) (textureLoaded s) (image s)
    (centerCoord s) (coord s) (_boundsArray s) (boundsBuffer s)
    (boundsVAO s).

Definition set_texture (v : option WebGLTexture) (s : ImageSource) : ImageSource :=
  mkImageSource (type_ s) (id_ s) (minzoom s) (maxzoom s) (tileSize s)
    (url s) (coordinates s) (tiles s) (options s) (dispatcher s)
    (eventedParent s) (map_ s) v (textureLoaded s) (image s) (centerCoord s)
    (coord s) (_boundsArray s) (boundsBuffer s) (boundsVAO s).

Definition set_textureLoaded (v : bool) (s : ImageSource) : ImageSource :=
  mkImageSource (type_ s) (id_ s) (minzoom s) (maxzoom s) (tileSize s)
    (url s) (coordinates s) (tiles s) (options s) (dispatcher s)
    (eventedParent s) (map_ s) (texture s) v (image s) (centerCoord s)
    (coord s) (_boundsArray s) (boundsBuffer s) (boundsVAO s).

Definition set_image (v : option Image) (s : ImageSource) : ImageSource :=
  mkImageSource (type_ s) (id_ s) (minzoom s) (maxzoom s) (tileSize s)
    (url s) (coordinates s) (tiles s) (options s) (dispatcher s)
    (eventedParent s) (map_ s) (texture s) (textureLoaded s) v
    (centerCoord s) (coord s) (_boundsArray s) (boundsBuffer s)
    (boundsVAO s).

Definition set_centerCoord (v : option Coordinate) (s : ImageSource) : ImageSource :=
  mkImageSource (type_ s) (id_ s) (minzoom s) (maxzoom s) (tileSize s)
    (url s) (coordinates s) (tiles s) (options s) (dispatcher s)
    (eventedParent s) (map_ s) (texture s) (textureLoaded s) (image s) v
    (coord s) (_boundsArray s) (boundsBuffer s) (boundsVAO s).

Definition set_coord (v : option TileCoord) (s : ImageSource) : ImageSource :=
  mkImageSource (type_ s) (id_ s) (minzoom s) (maxzoom s) (tileSize s)
    (url s) (coordinates s) (tiles s) (options s) (dispatcher s)
    (eventedParent s) (map_ s) (texture s) (textureLoaded s) (image s)
    (centerCoord s) v (_boundsArray s) (boundsBuffer s) (boundsVAO s).

Definition set__boundsArray (v : option RasterBoundsArray) (s : ImageSource) : ImageSource :=
  mkImageSource (type_ s) (id_ s) (minzoom s) (maxzoom s) (tileSize s)
    (url s) (coordinates s) (tiles s) (options s) (dispatcher s)
    (eventedParent s) (map_ s) (texture s) (textureLoaded s) (image s)
    (centerCoord s) (coord s) v (boundsBuffer s) (boundsVAO s).

Definition set_boundsBuffer (v : option VertexBuffer) (s : ImageSource) : ImageSource :=
  mkImageSource (type_ s) (id_ s) (minzoom s) (maxzoom s) (tileSize s)
    (url s) (coordinates s) (tiles s) (options s) (dispatcher s)
    (eventedParent s) (map_ s) (texture s) (textureLoaded s) (image s)
    (centerCoord s) (coord s) (_boundsArray s) v (boundsVAO s).

Definition set_boundsVAO (v : option VertexArrayObject) (s : ImageSource) : ImageSource :=
  mkImageSource (type_ s) (id_ s) (minzoom s) (maxzoom s) (tileSize s)
    (url s) (coordinates s) (tiles s) (options s) (dispatcher s)
    (eventedParent s) (map_ s) (texture s) (textureLoaded s) (image s)
    (centerCoord s) (coord s) (_boundsArray s) (boundsBuffer s) v.

(** ** The world *)

(** [this.fire(type, data)] *)
Record Event := Fire { ev_type : string; ev_data : list (string * string) }.

Record World := mkWorld {
  this : ImageSource;
  heap : gmap TileRef Tile;       (* the tile objects *)
  gl : GLContext;                 (* [map.painter.gl] *)
  fired : list Event;             (* events fired on the source *)
  requested : list JSValue;       (* urls handed to [ajax.getImage] *)
}.

Definition set_this (f : ImageSource → ImageSource) (w : World) : World :=
  mkWorld (f (this w)) (heap w) (gl w) (fired w) (requested w).
Definition set_heap (f : gmap TileRef Tile → gmap TileRef Tile) (w : World)
  : World :=
  mkWorld (this w) (f (heap w)) (gl w) (fired w) (requested w).
Definition set_gl (f : GLContext → GLContext) (w : World) : World :=
  mkWorld (this w) (heap w) (f (gl w)) (fired w) (requested w).
Definition fire (type : string) (data : list (string * string)) (w : World)
  : World :=
  mkWorld (this w) (heap w) (gl w) (fired w ++ [Fire type data]) (requested w).
Definition getImage (u : JSValue) (w : World) : World :=
  mkWorld (this w) (heap w) (gl w) (fired w) (requested w ++ [u]).

(** How a call ends: it returns, or it throws; either way it leaves a
    world behind. *)
Inductive Completion :=
  | Normal (w : World)
  | Throw (e : JSError) (w : World).

Definition world_of (c : Completion) : World :=
  match c with Normal w | Throw _ w => w end.

(** ** The methods *)

Definition ImageSource_new (id : string) (options : gmap string JSValue)
    (dispatcher : Dispatcher) (eventedParent : Evented) : ImageSource :=
  {| id_ := id;
     dispatcher := dispatcher;
     coordinates := as_coordinates (get options "coordinates");
     type_ := "image";
     minzoom := lit 0;
     maxzoom := lit 22;
     tileSize := lit 512;
     tiles := ∅;
     eventedParent := eventedParent;
     options := options;
     textureLoaded := false;
     url := undefined;
     map_ := None;
     texture := None;
     image := None;
     centerCoord := None;
     coord := None;
     _boundsArray := None;
     boundsBuffer := None;
     boundsVAO := None |}.

(** [map.transform.locationCoordinate(LngLat.convert(coord)).zoomTo(0)] *)
Definition cornerZ0Coord (map : Map) (coord : number * number) : Coordinate :=
  zoomTo (locationCoordinate (transform map) (LngLat_convert coord)) (lit 0).

(** The body of the second [map] of [setCoordinates]. *)
Definition tileCoord (centerCoord : Coordinate) (coord : Coordinate) : Point :=
  let zoomedCoord := zoomTo coord (zoom centerCoord) in
  mkPoint
    (Math_round (mul (sub (column zoomedCoord) (column centerCoord)) EXTENT))
    (Math_round (mul (sub (row zoomedCoord) (row centerCoord)) EXTENT)).

Definition setCoordinates (coordinates : Quad (number * number)) (w : World)
  : Completion :=
  let w := set_this (set_coordinates (Some coordinates)) w in
  match map_ (this w) with
  | None => Throw TypeError w          (* [map.transform] of [undefined] *)
  | Some map =>
    let cornerZ0Coords := quad_map (cornerZ0Coord map) coordinates in
    (* [centerCoord] and [this.centerCoord] are one object: the two
       assignments to its fields show in both *)
    let centerCoord := getCoordinatesCenter cornerZ0Coords in
    let centerCoord :=
      mkCoordinate (Math_floor (column centerCoord)) (row centerCoord)
        (zoom centerCoord) in
    let centerCoord :=
      mkCoordinate (column centerCoord) (Math_floor (row centerCoord))
        (zoom centerCoord) in
    let w := set_this (set_centerCoord (Some centerCoord)) w in
    let w :=
      set_this (set_coord (Some (new_TileCoord (zoom centerCoord)
                                   (column centerCoord) (row centerCoord)))) w in
    let w := set_this (set_maxzoom (zoom centerCoord)) w in
    let w := set_this (set_minzoom (zoom centerCoord)) w in
    let '(tileCoords0, tileCoords1, tileCoords2, tileCoords3) :=
      quad_map (tileCoord centerCoord) cornerZ0Coords in
    let arr := new_RasterBoundsArray in
    let arr := emplaceBack arr (pt_x tileCoords0) (pt_y tileCoords0)
                 (lit 0) (lit 0) in
    let arr := emplaceBack arr (pt_x tileCoords1) (pt_y tileCoords1)
                 EXTENT (lit 0) in
    let arr := emplaceBack arr (pt_x tileCoords3) (pt_y tileCoords3)
                 (lit 0) EXTENT in
    let arr := emplaceBack arr (pt_x tileCoords2) (pt_y tileCoords2)
                 EXTENT EXTENT in
    let w := set_this (set__boundsArray (Some arr)) w in
    let w :=
      match boundsBuffer (this w) with
      | Some b =>
        set_this (set_boundsBuffer None) (set_gl (gl_call (VertexBuffer_destroy b)) w)
      | None => w
      end in
    Normal (fire "data" [("dataType", "source"); ("sourceDataType", "content")] w)
  end.

(** [tile.state !== 'loaded'] guards both assignments of the loop body. *)
Definition mark_loaded (texture : option WebGLTexture) (tile : Tile) : Tile :=
  if decide (tile_state tile ≠ "loaded")
  then set_tile_texture texture (set_tile_state "loaded" tile)
  else tile.

Definition is_streaming (image : Image) : bool :=
  instanceof image HTMLVideoElement || instanceof image ImageData
  || instanceof image HTMLCanvasElement.

Definition _prepareImage (image : Image) (resize : bool) (w : World) : World :=
  let w :=
    match boundsBuffer (this w) with
    | None =>
      let '(b, g) := gl_alloc (gl w) in
      let g := gl_call (new_VertexBuffer b (_boundsArray (this w))) g in
      set_this (set_boundsBuffer (Some b)) (set_gl (λ _, g) w)
    | Some _ => w
    end in
  let w :=
    match boundsVAO (this w) with
    | None => set_this (set_boundsVAO (Some ())) w
    | Some _ => w
    end in
  let w :=
    if negb (textureLoaded (this w)) then
      let w := set_this (set_textureLoaded true) w in
      let '(t, g) := gl_alloc (gl w) in
      let w := set_this (set_texture (Some t)) (set_gl (λ _, g) w) in
      let w := set_gl (gl_call (createTexture t)) w in
      let w := set_gl (gl_call (bindTexture TEXTURE_2D (texture (this w)))) w in
      let w := set_gl (gl_call (texParameteri TEXTURE_2D TEXTURE_WRAP_S CLAMP_TO_EDGE)) w in
      let w := set_gl (gl_call (texParameteri TEXTURE_2D TEXTURE_WRAP_T CLAMP_TO_EDGE)) w in
      let w := set_gl (gl_call (texParameteri TEXTURE_2D TEXTURE_MIN_FILTER LINEAR)) w in
      let w := set_gl (gl_call (texParameteri TEXTURE_2D TEXTURE_MAG_FILTER LINEAR)) w in
      set_gl (gl_call (texImage2D TEXTURE_2D 0 RGBA RGBA UNSIGNED_BYTE image)) w
    else if resize then
      set_gl (gl_call (texImage2D TEXTURE_2D 0 RGBA RGBA UNSIGNED_BYTE image)) w
    else if is_streaming image then
      let w := set_gl (gl_call (bindTexture TEXTURE_2D (texture (this w)))) w in
      set_gl (gl_call (texSubImage2D TEXTURE_2D 0 0 0 RGBA UNSIGNED_BYTE image)) w
    else w in
  (* [for (const w in this.tiles)]: the body touches only the tile it
     visits, so the order of the visit does not show in the result *)
  set_heap
    (λ h, foldl (λ h (kv : string * TileRef),
                   alter (mark_loaded (texture (this w))) kv.2 h)
            h (map_to_list (tiles (this w)))) w.

Definition prepare (w : World) : Completion :=
  if bool_decide (size (tiles (this w)) = 0) then Normal w
  else match image (this w) with
       | None => Normal w
       | Some image =>
         match map_ (this w) with
         | None => Throw TypeError w   (* [this.map.painter] of [undefined] *)
         | Some _ => Normal (_prepareImage image false w)
         end
       end.

(** [this.coord && this.coord.toString() === tile.coord.toString()] *)
Definition is_anchor (s : ImageSource) (tile : Tile) : bool :=
  match coord s with
  | Some coord =>
    bool_decide (TileCoord_toString coord = TileCoord_toString (tile_coord tile))
  | None => false
  end.

(** [loadTile(tile, callback)].  The tile is passed by reference.  The
    result lists the arguments of the calls of [callback], in order:
    [None] is [callback(null)]. *)
Definition loadTile (r : TileRef) (w : World) : World * list (option JSError) :=
  match heap w !! r with
  | Some tile =>
    if is_anchor (this w) tile then
      let w :=
        set_this (λ s, set_tiles (<[String (tc_w (tile_coord tile)) := r]> (tiles s)) s) w in
      let w := set_heap (alter (set_tile_buckets ∅) r) w in
      (w, [None])
    else
      let w := set_heap (alter (set_tile_state "errored") r) w in
      (w, [None])
  | None => (w, [])                    (* no such object: not a call *)
  end.

Definition serialize (s : ImageSource) : gmap string JSValue :=
  <["type" := JSString "image"]>
    (<["urls" := get (options s) "url"]>
       (<["coordinates" := of_coordinates (coordinates s)]> ∅)).

Definition propagate (c : Completion) (k : World → Completion) : Completion :=
  match c with
  | Normal w => k w
  | Throw e w => Throw e w
  end.

Definition _finishLoading (w : World) : Completion :=
  match map_ (this w) with
  | Some _ =>
    match coordinates (this w) with
    | Some c =>
      propagate (setCoordinates c w) (λ w,
        Normal (fire "data" [("dataType", "source"); ("sourceDataType", "metadata")] w))
    | None => Throw TypeError w        (* [coordinates.map] of [undefined] *)
    end
  | None => Normal w
  end.

(** [load()] up to the asynchronous request, and the callback it hands to
    [ajax.getImage]. *)
Definition load (w : World) : Completion :=
  let w := fire "dataloading" [("dataType", "source")] w in
  let w := set_this (λ s, set_url (get (options s) "url") s) w in
  match map_ (this w) with
  | None => Throw TypeError w          (* [this.map._transformRequest] *)
  | Some _ => Normal (getImage (url (this w)) w)
  end.

Definition getImage_callback (err : option JSError) (image : option Image)
    (w : World) : Completion :=
  match err with
  | Some (Error m) => Normal (fire "error" [("error", m)] w)
  | Some TypeError => Normal (fire "error" [("error", "TypeError")] w)
  | None =>
    match image with
    | Some image => _finishLoading (set_this (set_image (Some image)) w)
    | None => Normal w
    end
  end.

Definition onAdd (map : Map) (w : World) : Completion :=
  load (set_this (set_map (Some map)) w).

(** ** Histories of calls *)

Inductive Call :=
  | call_setCoordinates (coordinates : Quad (number * number))
  | call_prepare
  | call__prepareImage (image : Image) (resize : bool)
  | call_loadTile (tile : TileRef)
  | call_serialize
  | call_load
  | call_getImage_callback (err : option JSError) (image : option Image)
  | call_onAdd (map : Map).

(** The world a call leaves behind, whether it returns or throws. *)
Definition step (w : World) (c : Call) : World :=
  match c with
  | call_setCoordinates coordinates => world_of (setCoordinates coordinates w)
  | call_prepare => world_of (prepare w)
  | call__prepareImage image resize => _prepareImage image resize w
  | call_loadTile tile => (loadTile tile w).1
  | call_serialize => w
  | call_load => world_of (load w)
  | call_getImage_callback err image => world_of (getImage_callback err image w)
  | call_onAdd map => world_of (onAdd map w)
  end.

Definition run (cs : list Call) (w : World) : World := foldl step w cs.

End Model.

(** ** Observations on a world *)

Section Observations.
Context {number : Type} `{!JSNumber number} `{!Collaborators (number:=number)}.

(** The best-fit centre of the corners, as [util.getCoordinatesCenter]
    returns it, and the anchor: the centre with its column and row
    floored. *)
Definition best_fit (map : Map) (coordinates : Quad (number * number))
  : Coordinate :=
  getCoordinatesCenter (quad_map (cornerZ0Coord map) coordinates).

Definition anchor (map : Map) (coordinates : Quad (number * number))
  : Coordinate :=
  let c := best_fit map coordinates in
  mkCoordinate (Math_floor (column c)) (Math_floor (row c)) (zoom c).

(** The tile-space point of the corner of index [i]. *)
Definition corner_point (map : Map) (coordinates : Quad (number * number))
    (i : nat) : option Point :=
  tileCoord (anchor map coordinates)
    <$> (cornerZ0Coord map <$> quad_nth coordinates i).

Definition vertex (p : Point) (tx ty : number) : RasterBoundsVertex :=
  mkVertex (pt_x p) (pt_y p) tx ty.

(** The vertex a corner ends up in: corners 2 and 3 change places. *)
Definition vertex_index (i : nat) : nat :=
  match i with
  | 2 => 3
  | 3 => 2
  | _ => i
  end.

(** The zoom range of the source is the zoom of its anchor tile. *)
Definition zoom_pinned (w : @World number) : Prop :=
  ∃ c, coord (this w) = Some c
       ∧ minzoom (this w) = tc_z c ∧ maxzoom (this w) = tc_z c.

(** The quad geometry: the anchor tile and the vertex records. *)
Definition geometry (w : @World number) : option TileCoord * option RasterBoundsArray :=
  (coord (this w), _boundsArray (this w)).

(** The calls of a context that concern textures. *)
Definition is_texture_call (c : @GLCall number) : bool :=
  match c with
  | new_VertexBuffer _ _ | VertexBuffer_destroy _ => false
  | _ => true
  end.

Definition is_createTexture (c : @GLCall number) : bool :=
  match c with createTexture _ => true | _ => false end.

Definition is_new_VertexBuffer (c : @GLCall number) : bool :=
  match c with new_VertexBuffer _ _ => true | _ => false end.

Definition texture_calls (w : @World number) : list GLCall :=
  filter is_texture_call (gl_calls (gl w)).

Definition texture_creations (w : @World number) : nat :=
  length (filter is_createTexture (gl_calls (gl w))).

Definition buffer_creations (w : @World number) : nat :=
  length (filter is_new_VertexBuffer (gl_calls (gl w))).

(** The calls that create a texture and upload [image] to it in full. *)
Definition full_upload (t : WebGLTexture) (image : Image)
  : list (@GLCall number) :=
  [ createTexture t;
    bindTexture TEXTURE_2D (Some t);
    texParameteri TEXTURE_2D TEXTURE_WRAP_S CLAMP_TO_EDGE;
    texParameteri TEXTURE_2D TEXTURE_WRAP_T CLAMP_TO_EDGE;
    texParameteri TEXTURE_2D TEXTURE_MIN_FILTER LINEAR;
    texParameteri TEXTURE_2D TEXTURE_MAG_FILTER LINEAR;
    texImage2D TEXTURE_2D 0 RGBA RGBA UNSIGNED_BYTE image ].

(** The calls [prepare()] and [_prepareImage()]. *)
Definition is_prepare (c : @Call number) : bool :=
  match c with
  | call_prepare | call__prepareImage _ _ => true
  | _ => false
  end.

(** The tiles of the claim table. *)
Definition claimed (w : @World number) (r : TileRef) : Prop :=
  ∃ k, tiles (this w) !! k = Some r.

(** A tile keeps its texture, and does not become ['loaded']. *)
Definition tile_kept (t t' : @Tile number) : Prop :=
  tile_texture t' = tile_texture t
  ∧ (tile_state t' = "loaded" → tile_state t = "loaded").

(** The elementary effects the methods are made of.  [_prepareImage] is
    an effect of the calls of [prepare] and [_prepareImage] only. *)
Inductive effect : bool → @World number → @World number → Prop :=
  | effect_fire p type data w : effect p w (fire type data w)
  | effect_getImage p u w : effect p w (getImage u w)
  | effect_image p i w : effect p w (set_this (set_image i) w)
  | effect_url p u w : effect p w (set_this (set_url u) w)
  | effect_map p m w : effect p w (set_this (set_map m) w)
  | effect_setCoordinates p c w : effect p w (world_of (setCoordinates c w))
  | effect_loadTile p r w : effect p w (loadTile r w).1
  | effect_prepareImage img resize w :
      effect true w (_prepareImage img resize w).

End Observations.

(** ** Exact numbers

    An implementation of [JSNumber] on the rationals: arithmetic is exact,
    [Math.floor] is the floor and [Math.round] rounds to the nearest
    integer, a tie towards +∞, which is what ECMAScript prescribes for
    finite arguments.  Results are kept in lowest terms, so that equal
    numbers are equal terms. *)

#[export] Instance Q_eq_dec : EqDecision Q.
Proof. solve_decision. Defined.

(** [String(n)], exact on the integers, which is what wrap indices are;
    another number prints as a quotient. *)
Definition Q_String (q : Q) : string :=
  let q := Qred q in
  match Qden q with
  | 1%positive => pretty (Qnum q)
  | d => pretty (Qnum q) +:+ "/" +:+ pretty (Zpos d)
  end.

#[export] Instance Q_number : JSNumber Q := {|
  lit := inject_Z;
  sub a b := Qred (a - b)%Q;
  mul a b := Qred (a * b)%Q;
  Math_floor x := inject_Z (Qfloor x);
  Math_round x := inject_Z (Qfloor (x + (1 # 2))%Q);
  String := Q_String;
|}.

(** Truncation towards zero, what [Math.round] is contrasted with. *)
Definition Q_trunc (x : Q) : Q := inject_Z (Z.quot (Qnum x) (Zpos (Qden x))).

(** ** A host to run the methods on *)

(** Modelled from the spec: [Coordinate.prototype.zoomTo] is defined in
    ../geo/coordinate, outside image_source.js; it is the "zoom-to-zoom
    reprojection", a scaling by the power of two between the levels. *)
Definition Q_zoomTo (c : @Coordinate Q) (z : Q) : @Coordinate Q :=
  let scale := Qpower 2 (Qfloor (z - zoom c)) in
  mkCoordinate (Qred (column c * scale)) (Qred (row c * scale)) z.

(** Modelled from the spec: [util.getCoordinatesCenter] is defined in
    ../util/util, outside image_source.js.  It "returns one tile-space
    coordinate, with a zoom, at which all four supplied points lie within
    tile-local extent bounds": the centre of the bounding box of the
    points, at the deepest zoom whose tiles are no smaller than the
    box. *)
Definition Q_getCoordinatesCenter (q : Quad (@Coordinate Q)) : @Coordinate Q :=
  let '(a, b, c, d) := q in
  let minX := Qmin (Qmin (column a) (column b)) (Qmin (column c) (column d)) in
  let maxX := Qmax (Qmax (column a) (column b)) (Qmax (column c) (column d)) in
  let minY := Qmin (Qmin (row a) (row b)) (Qmin (row c) (row d)) in
  let maxY := Qmax (Qmax (row a) (row b)) (Qmax (row c) (row d)) in
  let dMax := Qmax (maxX - minX) (maxY - minY) in
  let z := if Qle_bool dMax 0 then 0%Z else Z.max 0 (Z.log2 (Qfloor (/ dMax))) in
  Q_zoomTo (mkCoordinate (Qred ((minX + maxX) / 2)) (Qred ((minY + maxY) / 2)) 0%Q)
    (inject_Z z).

(** Modelled from the spec: the constant of ../data/extent is "the fixed
    per-tile coordinate range"; 8192 units here. *)
#[export] Instance Q_collaborators : @Collaborators Q := {|
  EXTENT := 8192%Q;
  LngLat_convert c := mkLngLat c.1 c.2;
  zoomTo := Q_zoomTo;
  getCoordinatesCenter := Q_getCoordinatesCenter;
|}.

(** A map whose transform is linear in longitude and latitude, a stand-in
    for the projection of the renderer. *)
Definition flat_map : @Map Q :=
  mkMap (mkTransform (λ l,
    mkCoordinate (Qred ((lng l + 180) / 360)) (Qred ((90 - lat l) / 180)) 0%Q)).

(** The source of the example in the documentation of the class. *)
Definition example_coordinates : Quad (Q * Q) :=
  ((-(7654 # 100), 3918 # 100), (-(7652 # 100), 3918 # 100),
   (-(7652 # 100), 3917 # 100), (-(7654 # 100), 3917 # 100))%Q.

(** The corners of the update in the same example. *)
Definition update_coordinates : Quad (Q * Q) :=
  ((-(7654335737228394 # 100000000000000), 3918579907229748 # 100000000000000),
   (-(7652803659439087 # 100000000000000), 391838364847587 # 10000000000000),
   (-(765295386314392 # 10000000000000), 3917683392507606 # 100000000000000),
   (-(7654520273208618 # 100000000000000), 3917876344106642 # 100000000000000))%Q.

Definition example_url : string := "https://www.mapbox.com/images/foo.png".

Definition example_options : gmap string (@JSValue Q) :=
  <["type" := JSString "image"]>
    (<["url" := JSString example_url]>
       (<["coordinates" := JSCoordinates example_coordinates]> ∅)).

Definition new_world (s : @ImageSource Q) : @World Q :=
  mkWorld s ∅ (mkGL [] 0%nat) [] [].

Definition example_world : @World Q :=
  new_world (ImageSource_new "some id" example_options 0%nat 0%nat).

Definition foo_png : Image := mkImage HTMLImageElement example_url.

(** [map.addSource]: [onAdd], then the raster arrives. *)
Definition example_loaded : @World Q :=
  run [call_onAdd flat_map; call_getImage_callback None (Some foo_png)]
    example_world.

(** A tile of the cache that has not been loaded yet. *)
Definition tile_at (z x y w : Z) : @Tile Q :=
  mkTile (mkTileCoord (lit z) (lit x) (lit y) (lit w)) "loading" None
    {["background" := 0%nat]}.

(** The example source, attached to the map and nothing else. *)
Definition example_attached : @World Q :=
  set_this (set_map (Some flat_map)) example_world.

(** The example source once loaded, with the cache holding its anchor
    tile, the same tile one world to the east, and the tile below. *)
Definition example_cache : gmap TileRef (@Tile Q) :=
  <[0%nat := tile_at 14 4709 4626 0]>
    (<[1%nat := tile_at 14 4709 4626 1]>
       (<[2%nat := tile_at 14 4709 4627 0]> ∅)).

Definition example_claimed : @World Q :=
  run [call_loadTile 0%nat; call_loadTile 1%nat; call_loadTile 2%nat]
    (set_heap (λ _, example_cache) example_loaded).

Definition example_prepared : @World Q := run [call_prepare] example_claimed.

(** A source whose anchor is the tile (z = 5, x = 10, y = 12), and a cache
    that holds this tile and the tile (5, 10, 13). *)
Definition anchored_5_10_12 : @World Q :=
  set_heap (λ _, <[0%nat := tile_at 5 10 12 0]> (<[1%nat := tile_at 5 10 13 0]> ∅))
    (set_this (set_coord (Some (new_TileCoord (lit 5) (lit 10) (lit 12))))
       example_world).

(** A source built from what [serialize] returns for the loaded example,
    added to the same map and given the same raster. *)
Definition example_revived : @World Q :=
  run [call_onAdd flat_map; call_getImage_callback None (Some foo_png)]
    (new_world (ImageSource_new "some id" (serialize (this example_loaded))
                  0%nat 0%nat)).

(** ** The life of a source *)

Section Lifecycle.
Context {number : Type} `{!JSNumber number} `{!Collaborators (number:=number)}.

(** The world right after [new ImageSource(id, options, dispatcher,
    eventedParent)]: nothing asked of the context, nothing fired, the tile
    objects of [cache] in the tile cache. *)
Definition created (id : string) (options : gmap string (@JSValue number))
    (dispatcher : Dispatcher) (eventedParent : Evented)
    (cache : gmap TileRef (@Tile number)) : @World number :=
  mkWorld (ImageSource_new id options dispatcher eventedParent) cache
    (mkGL [] 0) [] [].

(** The events of the class. *)
Definition ev_dataloading : Event := Fire "dataloading" [("dataType", "source")].
Definition ev_content : Event :=
  Fire "data" [("dataType", "source"); ("sourceDataType", "content")].
Definition ev_metadata : Event :=
  Fire "data" [("dataType", "source"); ("sourceDataType", "metadata")].

(** [onAdd(map)], then the raster [img] arrives. *)
Definition added (map : @Map number) (img : Image) : list (@Call number) :=
  [call_onAdd map; call_getImage_callback None (Some img)].

(** The four vertex records of the corners, in the order of the buffer. *)
Definition quad_vertices (map : @Map number) (corners : Quad (number * number))
  : option (@RasterBoundsArray number) :=
  p0 ← corner_point map corners 0;
  p1 ← corner_point map corners 1;
  p2 ← corner_point map corners 2;
  p3 ← corner_point map corners 3;
  Some [ vertex p0 (lit 0) (lit 0); vertex p1 EXTENT (lit 0);
         vertex p3 (lit 0) EXTENT; vertex p2 EXTENT EXTENT ].

(** The tile of the anchor. *)
Definition anchor_tile (map : @Map number) (corners : Quad (number * number))
  : @TileCoord number :=
  let a := anchor map corners in
  new_TileCoord (zoom a) (column a) (row a).

Definition is_VertexBuffer_destroy (c : @GLCall number) : bool :=
  match c with VertexBuffer_destroy _ => true | _ => false end.

Definition buffer_destructions (w : @World number) : nat :=
  length (filter is_VertexBuffer_destroy (gl_calls (gl w))).

(** Every vertex buffer built has been destroyed, but the one the source
    holds. *)
Definition buffers_balanced (w : @World number) : Prop :=
  buffer_creations w
  = (buffer_destructions w
     + (if boundsBuffer (this w) is Some _ then 1 else 0))%nat.

(** One texture at most, there when [textureLoaded] says so. *)
Definition texture_once (w : @World number) : Prop :=
  texture_creations w = (if textureLoaded (this w) then 1 else 0)%nat
  ∧ (textureLoaded (this w) = true ↔ is_Some (texture (this w))).

(** The zoom range of the constructor, and no anchor yet. *)
Definition zoom_initial (w : @World number) : Prop :=
  coord (this w) = None
  ∧ minzoom (this w) = lit 0 ∧ maxzoom (this w) = lit 22.

(** The geometry the source holds is the geometry of the corners it
    holds, on a map. *)
Definition geometry_current (w : @World number) : Prop :=
  ∀ tc, coord (this w) = Some tc →
    is_Some (map_ (this w))
    ∧ ∃ m c, coordinates (this w) = Some c
             ∧ tc = anchor_tile m c
             ∧ centerCoord (this w) = Some (anchor m c)
             ∧ _boundsArray (this w) = quad_vertices m c.

(** A claimed tile means an anchor, and an anchor means a map. *)
Definition well_attached (w : @World number) : Prop :=
  (tiles (this w) ≠ ∅ → is_Some (coord (this w)))
  ∧ (is_Some (coord (this w)) → is_Some (map_ (this w))).

(** What the constructor sets and no method assigns. *)
Definition constants (s : @ImageSource number)
  : string * string * number * gmap string JSValue * Dispatcher * Evented :=
  (type_ s, id_ s, tileSize s, options s, dispatcher s, eventedParent s).

(** The calls as they act on a world, one elementary action at a time. *)
Inductive action : @World number → @World number → Prop :=
  | action_fire type data w : action w (fire type data w)
  | action_getImage u w : action w (getImage u w)
  | action_image i w : action w (set_this (set_image (Some i)) w)
  | action_url w :
      action w (set_this (set_url (get (options (this w)) "url")) w)
  | action_map m w : action w (set_this (set_map (Some m)) w)
  | action_setCoordinates c w : action w (world_of (setCoordinates c w))
  | action_loadTile r w : action w (loadTile r w).1
  | action_prepareImage img resize w : action w (_prepareImage img resize w).

End Lifecycle.

(** Options that lack the corners. *)
Definition bare_options : gmap string (@JSValue Q) :=
  <["type" := JSString "image"]> (<["url" := JSString example_url]> ∅).

(** A video as the raster, and the example source showing it. *)
Definition clip : Image := mkImage HTMLVideoElement "clip.mp4".

Definition example_video : @World Q :=
  run [call_loadTile 0%nat; call_prepare]
    (set_heap (λ _, example_cache) (run (added flat_map clip) example_world)).

(** The prepared example after its corners moved: the tiles claimed under
    the old anchor are still in the claim table. *)
Definition example_moved : @World Q :=
  run [call_setCoordinates update_coordinates] example_prepared.

(** The anchor (5, 10, 12) with three tile objects for it in the cache:
    two for the world 0 and one for the world 1. *)
Definition anchored_twins : @World Q :=
  set_heap (λ _, <[0%nat := tile_at 5 10 12 0]>
                  (<[1%nat := tile_at 5 10 12 0]>
                     (<[2%nat := tile_at 5 10 12 1]> ∅)))
    anchored_5_10_12.

(** * Properties of the methods *)

Section Results.
Context {number : Type} `{!JSNumber number} `{!Collaborators (number:=number)}.
Implicit Types (w : @World number) (map : @Map number).
Implicit Types (corners : Quad (number * number)).

(** ** [setCoordinates] *)

Ltac unfold_setCoordinates corners :=
  unfold setCoordinates; cbn;
  destruct corners as [[[? ?] ?] ?]; cbn.

Lemma setCoordinates_returns w corners map :
  map_ (this w) = Some map →
  setCoordinates corners w = Normal (world_of (setCoordinates corners w)).
Proof.
  intros Hmap. unfold_setCoordinates corners. by rewrite Hmap.
Qed.

Lemma setCoordinates_throws w corners :
  map_ (this w) = None →
  setCoordinates corners w
  = Throw TypeError (set_this (set_coordinates (Some corners)) w).
Proof.
  intros Hmap. unfold setCoordinates; cbn. by rewrite Hmap.
Qed.

Lemma setCoordinates_anchor w corners map :
  map_ (this w) = Some map →
  let w' := world_of (setCoordinates corners w) in
  let c := anchor map corners in
  centerCoord (this w') = Some c
  ∧ coord (this w') = Some (new_TileCoord (zoom c) (column c) (row c))
  ∧ minzoom (this w') = zoom c
  ∧ maxzoom (this w') = zoom c.
Proof.
  intros Hmap. unfold_setCoordinates corners. rewrite Hmap. cbn.
  by destruct (boundsBuffer (this w)).
Qed.

Lemma setCoordinates_boundsArray w corners map :
  map_ (this w) = Some map →
  ∃ p0 p1 p2 p3,
    corner_point map corners 0 = Some p0
    ∧ corner_point map corners 1 = Some p1
    ∧ corner_point map corners 2 = Some p2
    ∧ corner_point map corners 3 = Some p3
    ∧ _boundsArray (this (world_of (setCoordinates corners w)))
      = Some [ vertex p0 (lit 0) (lit 0); vertex p1 EXTENT (lit 0);
               vertex p3 (lit 0) EXTENT; vertex p2 EXTENT EXTENT ].
Proof.
  intros Hmap. unfold_setCoordinates corners. rewrite Hmap. cbn.
  do 4 eexists. do 4 (split; [reflexivity|]).
  by destruct (boundsBuffer (this w)).
Qed.

(** What a call of [setCoordinates] leaves alone, whether it returns or
    throws. *)
Lemma setCoordinates_frame w corners :
  let w' := world_of (setCoordinates corners w) in
  heap w' = heap w
  ∧ texture (this w') = texture (this w)
  ∧ textureLoaded (this w') = textureLoaded (this w)
  ∧ tiles (this w') = tiles (this w)
  ∧ image (this w') = image (this w)
  ∧ map_ (this w') = map_ (this w)
  ∧ options (this w') = options (this w)
  ∧ coordinates (this w') = Some corners.
Proof.
  unfold_setCoordinates corners. destruct (map_ (this w)) eqn:Hmap; cbn.
  - destruct (boundsBuffer (this w)); cbn; repeat split; exact Hmap.
  - repeat split; exact Hmap.
Qed.

Lemma setCoordinates_buffer w corners map :
  map_ (this w) = Some map →
  let w' := world_of (setCoordinates corners w) in
  boundsBuffer (this w') = None
  ∧ gl w' = match boundsBuffer (this w) with
            | Some b => gl_call (VertexBuffer_destroy b) (gl w)
            | None => gl w
            end.
Proof.
  intros Hmap. unfold_setCoordinates corners. rewrite Hmap. cbn.
  by destruct (boundsBuffer (this w)) eqn:Hb; cbn.
Qed.

(** ** [_prepareImage] and [prepare] *)

Ltac unfold_prepareImage :=
  unfold _prepareImage; repeat (cbn in *; case_match); cbn in *.

Lemma _prepareImage_this img resize w :
  let w' := _prepareImage img resize w in
  coord (this w') = coord (this w)
  ∧ minzoom (this w') = minzoom (this w)
  ∧ maxzoom (this w') = maxzoom (this w)
  ∧ tiles (this w') = tiles (this w)
  ∧ image (this w') = image (this w)
  ∧ map_ (this w') = map_ (this w)
  ∧ _boundsArray (this w') = _boundsArray (this w)
  ∧ fired w' = fired w
  ∧ textureLoaded (this w') = true.
Proof.
  unfold_prepareImage. all: repeat split; try done.
  all: by apply negb_false_iff.
Qed.

Ltac simpl_calls :=
  unfold texture_calls, texture_creations, buffer_creations, full_upload;
  cbn; rewrite ?filter_app; cbn; rewrite <- ?app_assoc, ?app_nil_r; cbn.

(** The first call creates the texture and uploads the raster in full. *)
Lemma _prepareImage_first img resize w :
  textureLoaded (this w) = false →
  let w' := _prepareImage img resize w in
  ∃ t, texture (this w') = Some t
       ∧ texture_calls w' = texture_calls w ++ full_upload t img.
Proof.
  intros Hl. unfold_prepareImage.
  all: rewrite ?Hl in *; try discriminate.
  all: eexists; split; [reflexivity|]; by simpl_calls.
Qed.

(** A later call creates nothing: it uploads in full when asked to
    resize, else updates in place when the raster is a streaming one, else
    leaves the texture alone. *)
Lemma _prepareImage_later img resize w :
  textureLoaded (this w) = true →
  let w' := _prepareImage img resize w in
  texture (this w') = texture (this w)
  ∧ texture_calls w'
    = texture_calls w
      ++ (if resize then
            [texImage2D TEXTURE_2D 0 RGBA RGBA UNSIGNED_BYTE img]
          else if is_streaming img then
            [bindTexture TEXTURE_2D (texture (this w));
             texSubImage2D TEXTURE_2D 0 0 0 RGBA UNSIGNED_BYTE img]
          else []).
Proof.
  intros Hl. unfold_prepareImage.
  all: rewrite ?Hl in *; try discriminate.
  all: split; [reflexivity|]; by simpl_calls.
Qed.

Lemma texture_creations_calls w w' l :
  texture_calls w' = texture_calls w ++ l →
  texture_creations w' = texture_creations w + length (filter is_createTexture l).
Proof.
  unfold texture_calls, texture_creations. intros Heq.
  assert (Hsub : ∀ l : list (@GLCall number),
             filter is_createTexture (filter is_texture_call l)
             = filter is_createTexture l).
  { clear. induction l as [|c l IH]; [done|].
    destruct c; rewrite !(filter_cons (λ c, is_texture_call c)); cbn;
      repeat case_decide; try done;
      rewrite !(filter_cons (λ c, is_createTexture c)); cbn;
      repeat case_decide; try done; by rewrite IH. }
  rewrite <- (Hsub (gl_calls (gl w'))), Heq, filter_app, Hsub, length_app.
  done.
Qed.

(** The loop over the claim table. *)
Lemma mark_loaded_idemp tx (t : @Tile number) :
  mark_loaded tx (mark_loaded tx t) = mark_loaded tx t.
Proof.
  unfold mark_loaded. destruct (decide (tile_state t ≠ "loaded")) as [Hn|Hn].
  - by cbn.
  - by rewrite decide_False.
Qed.

Lemma foldl_alter_lookup (f : @Tile number → @Tile number)
    (l : list (string * TileRef)) (h : gmap TileRef (@Tile number)) r :
  (∀ t, f (f t) = f t) →
  foldl (λ h (kv : string * TileRef), alter f kv.2 h) h l !! r
  = (if decide (r ∈ l.*2) then f else id) <$> h !! r.
Proof.
  intros Hf. revert h. induction l as [|[k r'] l IH]; intros h; cbn.
  - rewrite decide_False by apply not_elem_of_nil. by destruct (h !! r).
  - rewrite IH. destruct (decide (r' = r)) as [->|Hne].
    + rewrite lookup_alter_eq, (decide_True (P := r ∈ r :: l.*2))
        by apply list_elem_of_here.
      destruct (h !! r) as [t|]; cbn; [|by case_decide].
      case_decide; cbn; by rewrite ?Hf.
    + rewrite lookup_alter_ne by done.
      destruct (decide (r ∈ l.*2)) as [Hin|Hin].
      * by rewrite decide_True by by apply list_elem_of_further.
      * rewrite decide_False; [done|].
        intros [?|?]%elem_of_cons; congruence.
Qed.

Lemma claimed_map_to_list w r :
  r ∈ (map_to_list (tiles (this w))).*2 ↔ claimed w r.
Proof.
  unfold claimed. rewrite list_elem_of_fmap. split.
  - intros [[k r'] [-> Hin]]. exists k. by apply elem_of_map_to_list.
  - intros [k Hk]. exists (k, r). split; [done|]. by apply elem_of_map_to_list.
Qed.

Lemma _prepareImage_heap img resize w r :
  let w' := _prepareImage img resize w in
  heap w' !! r
  = (if decide (r ∈ (map_to_list (tiles (this w))).*2)
     then mark_loaded (texture (this w')) else id) <$> heap w !! r.
Proof.
  intros w'.
  assert (Hfold : heap w'
            = foldl (λ h (kv : string * TileRef),
                       alter (mark_loaded (texture (this w'))) kv.2 h)
                (heap w) (map_to_list (tiles (this w)))).
  { subst w'. unfold_prepareImage; reflexivity. }
  rewrite Hfold. apply foldl_alter_lookup, mark_loaded_idemp.
Qed.

Lemma _prepareImage_claimed img resize w r :
  claimed w r →
  let w' := _prepareImage img resize w in
  heap w' !! r = mark_loaded (texture (this w')) <$> heap w !! r.
Proof.
  intros Hc%claimed_map_to_list w'. subst w'.
  by rewrite _prepareImage_heap, decide_True.
Qed.

Lemma _prepareImage_unclaimed img resize w r :
  ¬ claimed w r →
  heap (_prepareImage img resize w) !! r = heap w !! r.
Proof.
  rewrite <- claimed_map_to_list. intros Hc.
  rewrite _prepareImage_heap, decide_False by done.
  by destruct (heap w !! r).
Qed.

Lemma prepare_skips w :
  size (tiles (this w)) = 0 ∨ image (this w) = None → prepare w = Normal w.
Proof.
  unfold prepare. intros [Hsize|Himage].
  - by rewrite bool_decide_eq_true_2.
  - rewrite Himage. by case_bool_decide.
Qed.

Lemma prepare_runs w img map :
  size (tiles (this w)) ≠ 0 →
  image (this w) = Some img →
  map_ (this w) = Some map →
  prepare w = Normal (_prepareImage img false w).
Proof.
  unfold prepare. intros Hsize -> ->. by rewrite bool_decide_eq_false_2.
Qed.

Lemma prepare_world w :
  world_of (prepare w) = w
  ∨ ∃ img, image (this w) = Some img
           ∧ world_of (prepare w) = _prepareImage img false w.
Proof.
  unfold prepare. case_bool_decide; [by left|].
  destruct (image (this w)) as [img|]; [|by left].
  destruct (map_ (this w)); [right; by exists img|by left].
Qed.

(** ** [loadTile] *)

Lemma loadTile_anchor w r tile :
  heap w !! r = Some tile →
  is_anchor (this w) tile = true →
  loadTile r w
  = (set_heap (alter (set_tile_buckets ∅) r)
       (set_this (λ s, set_tiles
                         (<[String (tc_w (tile_coord tile)) := r]> (tiles s)) s)
          w),
     [None]).
Proof. unfold loadTile. by intros -> ->. Qed.

Lemma loadTile_other w r tile :
  heap w !! r = Some tile →
  is_anchor (this w) tile = false →
  loadTile r w = (set_heap (alter (set_tile_state "errored") r) w, [None]).
Proof. unfold loadTile. by intros -> ->. Qed.

Lemma loadTile_this w r :
  let w' := (loadTile r w).1 in
  coord (this w') = coord (this w)
  ∧ minzoom (this w') = minzoom (this w)
  ∧ maxzoom (this w') = maxzoom (this w)
  ∧ textureLoaded (this w') = textureLoaded (this w)
  ∧ texture (this w') = texture (this w)
  ∧ gl w' = gl w.
Proof. unfold loadTile. by repeat (cbn; case_match). Qed.

Lemma is_anchor_spec (s : @ImageSource number) tile :
  is_anchor s tile = true
  ↔ ∃ c, coord s = Some c
         ∧ tc_z c = tc_z (tile_coord tile)
         ∧ tc_x c = tc_x (tile_coord tile)
         ∧ tc_y c = tc_y (tile_coord tile).
Proof.
  unfold is_anchor, TileCoord_toString. destruct (coord s) as [c|].
  - rewrite bool_decide_eq_true. split.
    + intros [= ? ? ?]. by exists c.
    + intros (? & [= <-] & -> & -> & ->). done.
  - split; [done|]. by intros (? & ? & _).
Qed.

(** ** The calls as sequences of effects *)

Local Arguments setCoordinates : simpl never.

Lemma _finishLoading_effects p w : rtc (effect p) w (world_of (_finishLoading w)).
Proof.
  unfold _finishLoading.
  destruct (map_ (this w)) as [m|] eqn:Hmap; [|done].
  destruct (coordinates (this w)) as [c|]; [|done].
  rewrite (setCoordinates_returns _ _ _ Hmap). cbn.
  eapply rtc_l; [apply (effect_setCoordinates p c)|].
  apply rtc_once, effect_fire.
Qed.

Lemma load_effects p w : rtc (effect p) w (world_of (load w)).
Proof.
  unfold load.
  eapply rtc_l; [apply (effect_fire p "dataloading" [("dataType", "source")])|].
  eapply rtc_l; [apply (effect_url p (get (options (this w)) "url"))|].
  cbn. destruct (map_ (this w)); cbn; [|done].
  apply rtc_once, effect_getImage.
Qed.

Lemma step_effects w c : rtc (effect (is_prepare c)) w (step w c).
Proof.
  destruct c as [c| |img resize|r| | |err img|m]; cbn.
  - apply rtc_once, effect_setCoordinates.
  - destruct (prepare_world w) as [->|(img & _ & ->)]; [done|].
    apply rtc_once, effect_prepareImage.
  - apply rtc_once, effect_prepareImage.
  - apply rtc_once, effect_loadTile.
  - done.
  - apply load_effects.
  - unfold getImage_callback. destruct err as [[|msg]|].
    + apply rtc_once, effect_fire.
    + apply rtc_once, effect_fire.
    + destruct img as [img|]; [|done].
      eapply rtc_l; [apply (effect_image _ (Some img))|].
      apply _finishLoading_effects.
  - unfold onAdd. eapply rtc_l; [apply (effect_map _ (Some m))|].
    apply load_effects.
Qed.

Lemma effect_weaken p w w' : effect p w w' → effect true w w'.
Proof. destruct 1; constructor. Qed.

Lemma run_effects cs w : rtc (effect true) w (run cs w).
Proof.
  revert w. induction cs as [|c cs IH]; intros w; cbn; [done|].
  etrans; [|apply IH].
  eapply rtc_subrel; [|apply step_effects]. intros ??. apply effect_weaken.
Qed.

(** ** The zoom range *)

Lemma effect_zoom_pinned p w w' : effect p w w' → zoom_pinned w → zoom_pinned w'.
Proof.
  unfold zoom_pinned. destruct 1 as [| | | | |p c w|p r w|img resize w]; try done.
  - intros Hpin. destruct (map_ (this w)) as [m|] eqn:Hmap.
    + destruct (setCoordinates_anchor w c m Hmap) as (_ & -> & -> & ->).
      by eexists.
    + by rewrite (setCoordinates_throws _ _ Hmap).
  - by destruct (loadTile_this w r) as (-> & -> & -> & _).
  - by destruct (_prepareImage_this img resize w) as (-> & -> & -> & _).
Qed.

Lemma effects_zoom_pinned p w w' :
  rtc (effect p) w w' → zoom_pinned w → zoom_pinned w'.
Proof. induction 1; eauto using effect_zoom_pinned. Qed.

(** C2. After a call of [setCoordinates] that returns, whatever the four
    corners, [minzoom] and [maxzoom] both are the zoom of the anchor tile
    the call selected, which is the zoom of the best-fit centre; and
    through every later history of calls the zoom range stays pinned to
    the zoom of the anchor tile. *)
Theorem setCoordinates_pins_zoom w corners map :
  map_ (this w) = Some map →
  ∃ w' c,
    setCoordinates corners w = Normal w'
    ∧ coord (this w') = Some c
    ∧ tc_z c = zoom (best_fit map corners)
    ∧ minzoom (this w') = tc_z c
    ∧ maxzoom (this w') = tc_z c
    ∧ ∀ calls, zoom_pinned (run calls w').
Proof.
  intros Hmap.
  destruct (setCoordinates_anchor w corners map Hmap) as (_ & Hc & Hmin & Hmax).
  eexists _, _. split; [by apply setCoordinates_returns with map|].
  split; [exact Hc|]. repeat split; try done.
  intros calls. eapply effects_zoom_pinned; [apply run_effects|].
  by eexists.
Qed.

(** ** The quad *)

Lemma vertex_inj (p q : @Point number) tx ty :
  vertex p tx ty = vertex q tx ty → p = q.
Proof. destruct p, q. unfold vertex; cbn. by intros [= -> ->]. Qed.

(** C3. A call of [setCoordinates] that returns leaves exactly four
    vertices: vertex 0 is corner 0 with texture coordinate (0, 0), vertex 1
    is corner 1 with (EXTENT, 0), vertex 2 is corner 3 with (0, EXTENT) and
    vertex 3 is corner 2 with (EXTENT, EXTENT).  Vertex 2 is not the point
    of corner 2, unless corners 2 and 3 fall on the same point. *)
Theorem setCoordinates_vertex_order w corners map :
  map_ (this w) = Some map →
  ∃ w' p0 p1 p2 p3,
    setCoordinates corners w = Normal w'
    ∧ corner_point map corners 0 = Some p0
    ∧ corner_point map corners 1 = Some p1
    ∧ corner_point map corners 2 = Some p2
    ∧ corner_point map corners 3 = Some p3
    ∧ _boundsArray (this w')
      = Some [ vertex p0 (lit 0) (lit 0); vertex p1 EXTENT (lit 0);
               vertex p3 (lit 0) EXTENT; vertex p2 EXTENT EXTENT ]
    ∧ (p3 ≠ p2 →
       ∀ arr, _boundsArray (this w') = Some arr →
              arr !! 2 ≠ Some (vertex p2 (lit 0) EXTENT)).
Proof.
  intros Hmap.
  destruct (setCoordinates_boundsArray w corners map Hmap)
    as (p0 & p1 & p2 & p3 & H0 & H1 & H2 & H3 & Harr).
  exists (world_of (setCoordinates corners w)), p0, p1, p2, p3.
  split; [by apply setCoordinates_returns with map|].
  repeat (split; [done|]).
  intros Hne arr. rewrite Harr. intros [= <-] Heq.
  apply Hne, (vertex_inj _ _ (lit 0) EXTENT). cbn in Heq. congruence.
Qed.

(** C4. The anchor is the best-fit centre with its column and its row
    floored and its zoom as it is; the position of the vertex of a corner
    is the corner projected to zoom 0, scaled to the zoom of the anchor,
    minus the column and row of the anchor, times EXTENT, rounded by
    [Math.round]. *)
Theorem setCoordinates_vertex_position w corners map i c :
  map_ (this w) = Some map →
  quad_nth corners i = Some c →
  ∃ w' arr v,
    setCoordinates corners w = Normal w'
    ∧ coord (this w')
      = Some (new_TileCoord (zoom (best_fit map corners))
                (Math_floor (column (best_fit map corners)))
                (Math_floor (row (best_fit map corners))))
    ∧ _boundsArray (this w') = Some arr
    ∧ arr !! vertex_index i = Some v
    ∧ a_pos_x v
      = Math_round
          (mul (sub (column (zoomTo (cornerZ0Coord map c) (zoom (best_fit map corners))))
                  (Math_floor (column (best_fit map corners))))
             EXTENT)
    ∧ a_pos_y v
      = Math_round
          (mul (sub (row (zoomTo (cornerZ0Coord map c) (zoom (best_fit map corners))))
                  (Math_floor (row (best_fit map corners))))
             EXTENT).
Proof.
  intros Hmap Hc.
  destruct (setCoordinates_boundsArray w corners map Hmap)
    as (p0 & p1 & p2 & p3 & H0 & H1 & H2 & H3 & Harr).
  destruct (setCoordinates_anchor w corners map Hmap) as (_ & Hcoord & _).
  exists (world_of (setCoordinates corners w)),
    [ vertex p0 (lit 0) (lit 0); vertex p1 EXTENT (lit 0);
      vertex p3 (lit 0) EXTENT; vertex p2 EXTENT EXTENT ].
  assert (Hp : ∀ p, corner_point map corners i = Some p →
             p = tileCoord (anchor map corners) (cornerZ0Coord map c)).
  { unfold corner_point. rewrite Hc. cbn. by intros p [= <-]. }
  destruct i as [|[|[|[|i]]]]; cbn in Hc |- *.
  5: { by destruct corners as [[[? ?] ?] ?]. }
  - exists (vertex p0 (lit 0) (lit 0)).
    split; [by apply setCoordinates_returns with map|].
    split; [exact Hcoord|]. split; [exact Harr|]. by rewrite (Hp p0 H0).
  - exists (vertex p1 EXTENT (lit 0)).
    split; [by apply setCoordinates_returns with map|].
    split; [exact Hcoord|]. split; [exact Harr|]. by rewrite (Hp p1 H1).
  - exists (vertex p2 EXTENT EXTENT).
    split; [by apply setCoordinates_returns with map|].
    split; [exact Hcoord|]. split; [exact Harr|]. by rewrite (Hp p2 H2).
  - exists (vertex p3 (lit 0) EXTENT).
    split; [by apply setCoordinates_returns with map|].
    split; [exact Hcoord|]. split; [exact Harr|]. by rewrite (Hp p3 H3).
Qed.

(** C9. With the map fixed, the geometry a call of [setCoordinates]
    leaves is a function of the corners alone: a second call with the same
    corners, right away or from any other state of the source, leaves the
    same anchor tile and the same four vertex records. *)
Theorem setCoordinates_deterministic w corners map :
  map_ (this w) = Some map →
  ∃ w1 w2,
    setCoordinates corners w = Normal w1
    ∧ setCoordinates corners w1 = Normal w2
    ∧ geometry w2 = geometry w1
    ∧ centerCoord (this w2) = centerCoord (this w1)
    ∧ ∀ w3, map_ (this w3) = Some map →
            ∃ w4, setCoordinates corners w3 = Normal w4
                  ∧ geometry w4 = geometry w1.
Proof.
  intros Hmap.
  assert (Hgeo : ∀ w3, map_ (this w3) = Some map →
            ∃ w4, setCoordinates corners w3 = Normal w4
                  ∧ geometry w4
                    = geometry (world_of (setCoordinates corners w))
                  ∧ centerCoord (this w4)
                    = centerCoord (this (world_of (setCoordinates corners w)))).
  { intros w3 Hmap3. exists (world_of (setCoordinates corners w3)).
    split; [by apply setCoordinates_returns with map|].
    destruct (setCoordinates_anchor w corners map Hmap) as (-> & Hc & _).
    destruct (setCoordinates_anchor w3 corners map Hmap3) as (-> & Hc3 & _).
    destruct (setCoordinates_boundsArray w corners map Hmap)
      as (p0 & p1 & p2 & p3 & H0 & H1 & H2 & H3 & Harr).
    destruct (setCoordinates_boundsArray w3 corners map Hmap3)
      as (q0 & q1 & q2 & q3 & G0 & G1 & G2 & G3 & Garr).
    unfold geometry. rewrite Hc, Hc3, Harr, Garr.
    by simplify_eq. }
  destruct (setCoordinates_frame w corners) as (_ & _ & _ & _ & _ & Hmap' & _).
  rewrite Hmap in Hmap'.
  destruct (Hgeo _ Hmap') as (w2 & Hw2 & Hg & Hcc).
  exists (world_of (setCoordinates corners w)), w2.
  split; [by apply setCoordinates_returns with map|].
  repeat (split; [done|]).
  intros w3 Hmap3. destruct (Hgeo w3 Hmap3) as (w4 & ? & ? & _). by exists w4.
Qed.

(** ** The texture *)

Lemma is_streaming_class (img : Image) :
  is_streaming img = true ↔ image_class img ≠ HTMLImageElement.
Proof. unfold is_streaming, instanceof. by destruct (image_class img). Qed.

Lemma setCoordinates_creations w corners :
  texture_creations (world_of (setCoordinates corners w)) = texture_creations w.
Proof.
  destruct (map_ (this w)) as [m|] eqn:Hmap.
  - destruct (setCoordinates_buffer w corners m Hmap) as (_ & Hgl).
    unfold texture_creations. rewrite Hgl.
    destruct (boundsBuffer (this w)); [|done].
    cbn. by rewrite filter_app, length_app, Nat.add_0_r.
  - by rewrite (setCoordinates_throws _ _ Hmap).
Qed.

Lemma effect_textureLoaded p w w' :
  effect p w w' →
  textureLoaded (this w) = true →
  textureLoaded (this w') = true ∧ texture_creations w' = texture_creations w.
Proof.
  destruct 1 as [| | | | |p c w|p r w|img resize w]; try done; intros Hl.
  - destruct (setCoordinates_frame w c) as (_ & _ & -> & _). split; [done|].
    apply setCoordinates_creations.
  - by destruct (loadTile_this w r) as (_ & _ & _ & -> & _ & Hgl);
      unfold texture_creations; rewrite Hgl.
  - destruct (_prepareImage_this img resize w) as (_ & _ & _ & _ & _ & _ & _ & _ & ->).
    split; [done|].
    destruct (_prepareImage_later img resize w Hl) as (_ & Hcalls).
    rewrite (texture_creations_calls _ _ _ Hcalls).
    by destruct resize, (is_streaming img); cbn; rewrite Nat.add_0_r.
Qed.

Lemma effects_textureLoaded p w w' :
  rtc (effect p) w w' →
  textureLoaded (this w) = true →
  textureLoaded (this w') = true ∧ texture_creations w' = texture_creations w.
Proof.
  induction 1 as [|w1 w2 w3 Hstep _ IH]; [done|]. intros Hl.
  destruct (effect_textureLoaded _ _ _ Hstep Hl) as (Hl2 & <-). by apply IH.
Qed.

Lemma prepare_static w img :
  textureLoaded (this w) = true →
  image (this w) = Some img →
  image_class img = HTMLImageElement →
  let w' := world_of (prepare w) in
  texture_calls w' = texture_calls w
  ∧ textureLoaded (this w') = true
  ∧ image (this w') = Some img.
Proof.
  intros Hl Himg Hclass. cbv zeta.
  destruct (prepare_world w) as [->|(img' & Himg' & ->)]; [done|].
  assert (img' = img) as -> by congruence.
  destruct (_prepareImage_later img false w Hl) as (_ & ->).
  destruct (_prepareImage_this img false w)
    as (_ & _ & _ & _ & -> & _ & _ & _ & ->).
  destruct (is_streaming img) eqn:Hs.
  - by apply is_streaming_class in Hs.
  - by rewrite app_nil_r.
Qed.

Lemma prepares_static n w img :
  textureLoaded (this w) = true →
  image (this w) = Some img →
  image_class img = HTMLImageElement →
  texture_calls (run (replicate n call_prepare) w) = texture_calls w.
Proof.
  intros Hl Himg Hclass. revert w Hl Himg.
  induction n as [|n IH]; intros w Hl Himg; [done|]. cbn.
  destruct (prepare_static w img Hl Himg Hclass) as (<- & Hl' & Himg').
  by apply IH.
Qed.

(** C5. The first [prepare()] of a source with a raster and a claimed
    tile creates the texture, with CLAMP_TO_EDGE wrapping and LINEAR
    filtering, and uploads the raster in full.  No later history of calls
    creates a texture again.  A later [_prepareImage] uploads in full only
    when asked to resize, updates in place only when the raster is a
    video, a canvas or an image-data buffer, and issues no texture call
    for a static image that is not resized; [prepare()] never touches the
    texture of a static image again. *)
Theorem prepare_texture_lifecycle w img map :
  size (tiles (this w)) ≠ 0 →
  image (this w) = Some img →
  map_ (this w) = Some map →
  textureLoaded (this w) = false →
  ∃ w1 t,
    prepare w = Normal w1
    ∧ texture (this w1) = Some t
    ∧ textureLoaded (this w1) = true
    ∧ texture_calls w1 = texture_calls w ++ full_upload t img
    ∧ texture_creations w1 = S (texture_creations w)
    ∧ (∀ n, texture_creations (run (replicate n call_prepare) w1)
            = S (texture_creations w))
    ∧ (∀ calls, texture_creations (run calls w1) = S (texture_creations w))
    ∧ (∀ w2 img2 resize,
         textureLoaded (this w2) = true →
         let w3 := _prepareImage img2 resize w2 in
         texture (this w3) = texture (this w2)
         ∧ texture_creations w3 = texture_creations w2
         ∧ (∃ calls,
              texture_calls w3 = texture_calls w2 ++ calls
              ∧ (texImage2D TEXTURE_2D 0 RGBA RGBA UNSIGNED_BYTE img2 ∈ calls
                 ↔ resize = true)
              ∧ (texSubImage2D TEXTURE_2D 0 0 0 RGBA UNSIGNED_BYTE img2 ∈ calls
                 ↔ resize = false ∧ image_class img2 ≠ HTMLImageElement)
              ∧ (resize = false → image_class img2 = HTMLImageElement →
                 calls = [])))
    ∧ (image_class img = HTMLImageElement →
       ∀ n, texture_calls (run (replicate n call_prepare) w1)
            = texture_calls w1).
Proof.
  intros Hsize Himg Hmap Hl.
  destruct (_prepareImage_first img false w Hl) as (t & Ht & Hcalls).
  destruct (_prepareImage_this img false w)
    as (_ & _ & _ & _ & Himg1 & _ & _ & _ & Hl1).
  exists (_prepareImage img false w), t.
  split; [by apply prepare_runs with map|].
  assert (Hone : texture_creations (_prepareImage img false w)
                 = S (texture_creations w)).
  { rewrite (texture_creations_calls _ _ _ Hcalls).
    assert (length (filter is_createTexture (full_upload t img)) = 1)
      as -> by reflexivity.
    lia. }
  repeat (split; [done|]).
  split; [|split; [|split]].
  - intros n. rewrite <- Hone.
    by destruct (effects_textureLoaded true _ _
                   (run_effects (replicate n call_prepare) _) Hl1).
  - intros calls. rewrite <- Hone.
    by destruct (effects_textureLoaded true _ _ (run_effects calls _) Hl1).
  - intros w2 img2 resize Hl2.
    destruct (_prepareImage_later img2 resize w2 Hl2) as (Htex & Hc2).
    split; [done|]. split.
    { by destruct (effect_textureLoaded true _ _
                     (effect_prepareImage img2 resize w2) Hl2). }
    eexists. split; [exact Hc2|].
    pose proof (is_streaming_class img2) as Hs.
    destruct resize, (is_streaming img2); cbn.
    all: rewrite ?elem_of_cons, ?elem_of_nil.
    all: intuition congruence.
  - intros Hclass n. apply prepares_static with img; try done.
    by rewrite Himg1.
Qed.

(** ** The vertex buffer *)

Lemma _prepareImage_buffer img resize w :
  boundsBuffer (this w) = None →
  let w' := _prepareImage img resize w in
  boundsBuffer (this w') = Some (gl_next (gl w))
  ∧ new_VertexBuffer (gl_next (gl w)) (_boundsArray (this w))
    ∈ gl_calls (gl w').
Proof.
  intros Hb. unfold_prepareImage.
  all: rewrite ?Hb in *; try discriminate.
  all: split; [done|]; rewrite ?elem_of_app, ?elem_of_cons; tauto.
Qed.

(** C6. A call of [setCoordinates] on a source that holds a vertex buffer
    destroys the buffer and clears [boundsBuffer] before it returns, and
    the next [_prepareImage] builds a buffer from the new vertices; the
    texture handle, the [textureLoaded] flag, the texture calls issued so
    far and the tiles are as they were. *)
Theorem setCoordinates_destroys_buffer w corners map b :
  map_ (this w) = Some map →
  boundsBuffer (this w) = Some b →
  ∃ w',
    setCoordinates corners w = Normal w'
    ∧ boundsBuffer (this w') = None
    ∧ gl_calls (gl w') = gl_calls (gl w) ++ [VertexBuffer_destroy b]
    ∧ texture (this w') = texture (this w)
    ∧ textureLoaded (this w') = textureLoaded (this w)
    ∧ texture_calls w' = texture_calls w
    ∧ heap w' = heap w
    ∧ (∀ img resize,
         ∃ b', boundsBuffer (this (_prepareImage img resize w')) = Some b'
               ∧ new_VertexBuffer b' (_boundsArray (this w'))
                 ∈ gl_calls (gl (_prepareImage img resize w')))
    ∧ (∀ w0 corners0,
         let w0' := world_of (setCoordinates corners0 w0) in
         texture (this w0') = texture (this w0)
         ∧ textureLoaded (this w0') = textureLoaded (this w0)
         ∧ texture_creations w0' = texture_creations w0
         ∧ heap w0' = heap w0).
Proof.
  intros Hmap Hb.
  destruct (setCoordinates_buffer w corners map Hmap) as (Hnone & Hgl).
  destruct (setCoordinates_frame w corners) as (Hheap & Htex & Hl & _).
  exists (world_of (setCoordinates corners w)).
  split; [by apply setCoordinates_returns with map|].
  rewrite Hb in Hgl. repeat (split; [done || by rewrite Hgl|]).
  split; [|split; [done|split]].
  - unfold texture_calls. rewrite Hgl. cbn.
    by rewrite filter_app, app_nil_r.
  - intros img resize. eexists. by apply _prepareImage_buffer.
  - intros w0 corners0. cbv zeta.
    destruct (setCoordinates_frame w0 corners0) as (-> & -> & -> & _).
    repeat (split; [done|]). split; [|done].
    apply setCoordinates_creations.
Qed.

(** ** The claim table *)

Lemma alter_lookup_insert (f : @Tile number → @Tile number)
    (h : gmap TileRef (@Tile number)) r t :
  h !! r = Some t → alter f r h = <[r := f t]> h.
Proof.
  intros Hr. apply map_eq. intros r'. destruct (decide (r = r')) as [<-|Hne].
  - by rewrite lookup_alter_eq, lookup_insert_eq, Hr.
  - by rewrite lookup_alter_ne, lookup_insert_ne.
Qed.

(** C7. [loadTile] calls its callback once, with a null error, whatever
    the tile.  A tile whose zoom, column and row are those of the anchor is
    entered in the claim table under its wrap index and loses its buckets,
    and nothing else changes.  Any other tile gets the state ['errored'],
    and nothing else changes. *)
Theorem loadTile_reports_success w r tile :
  heap w !! r = Some tile →
  ∃ w',
    loadTile r w = (w', [None])
    ∧ (is_anchor (this w) tile = true
       ↔ ∃ c, coord (this w) = Some c
              ∧ tc_z c = tc_z (tile_coord tile)
              ∧ tc_x c = tc_x (tile_coord tile)
              ∧ tc_y c = tc_y (tile_coord tile))
    ∧ (is_anchor (this w) tile = true →
       this w'
       = set_tiles (<[String (tc_w (tile_coord tile)) := r]> (tiles (this w)))
           (this w)
       ∧ tiles (this w') !! String (tc_w (tile_coord tile)) = Some r
       ∧ heap w' = <[r := set_tile_buckets ∅ tile]> (heap w))
    ∧ (is_anchor (this w) tile = false →
       this w' = this w
       ∧ heap w' = <[r := set_tile_state "errored" tile]> (heap w))
    ∧ gl w' = gl w
    ∧ fired w' = fired w
    ∧ requested w' = requested w.
Proof.
  intros Hr. pose proof (is_anchor_spec (this w) tile) as Hspec.
  destruct (is_anchor (this w) tile) eqn:Ha.
  - eexists. split; [by apply (loadTile_anchor w r tile)|].
    split; [exact Hspec|].
    cbn. split; [|done]. intros _. split; [done|].
    split; [apply lookup_insert_eq|]. by apply alter_lookup_insert.
  - eexists. split; [by apply (loadTile_other w r tile)|].
    split; [exact Hspec|].
    cbn. split; [done|]. split; [|done]. intros _. split; [done|].
    by apply alter_lookup_insert.
Qed.

(** C8. [prepare()] on a source whose claim table is empty, or whose
    raster has not arrived, returns and leaves the world as it found it:
    no call on the context, no texture, no buffer, no tile written. *)
Theorem prepare_noop w :
  tiles (this w) = ∅ ∨ image (this w) = None →
  ∃ w',
    prepare w = Normal w'
    ∧ w' = w
    ∧ gl_calls (gl w') = gl_calls (gl w)
    ∧ texture_creations w' = texture_creations w
    ∧ buffer_creations w' = buffer_creations w
    ∧ heap w' = heap w.
Proof.
  intros Hskip. exists w. split; [|done].
  apply prepare_skips. destruct Hskip as [->|Himg]; [left|by right].
  apply map_size_empty.
Qed.

(** ** The state of the tiles *)

Lemma loadTile_heap w r r' t' :
  heap (loadTile r w).1 !! r' = Some t' →
  ∃ t, heap w !! r' = Some t ∧ tile_kept t t'.
Proof.
  unfold loadTile, tile_kept.
  destruct (heap w !! r) as [tile|] eqn:Hr; cbn; [|by eauto].
  destruct (is_anchor (this w) tile); cbn.
  all: destruct (decide (r = r')) as [<-|Hne];
    [rewrite lookup_alter_eq, Hr; cbn; intros [= <-]
    |rewrite lookup_alter_ne by done; by eauto].
  all: by eexists.
Qed.

Lemma effect_tiles w w' r t' :
  effect false w w' →
  heap w' !! r = Some t' →
  ∃ t, heap w !! r = Some t ∧ tile_kept t t'.
Proof.
  inversion 1 as [| | | | |p c w0|p r0 w0|]; subst; cbn.
  1-5: by eexists.
  - destruct (setCoordinates_frame w c) as (-> & _). by eexists.
  - apply loadTile_heap.
Qed.

Lemma effects_tiles w w' r t' :
  rtc (effect false) w w' →
  heap w' !! r = Some t' →
  ∃ t, heap w !! r = Some t ∧ tile_kept t t'.
Proof.
  intros Hrtc. revert t'.
  induction Hrtc as [|w1 w2 w3 Hstep _ IH]; intros t' Ht'; [by eexists|].
  destruct (IH _ Ht') as (t2 & Ht2 & Hk2 & Hs2).
  destruct (effect_tiles _ _ _ _ Hstep Ht2) as (t1 & Ht1 & Hk1 & Hs1).
  exists t1. unfold tile_kept. split; [done|]. split; [congruence|tauto].
Qed.

(** C10. Claiming a tile leaves its state and its texture as they are.
    A pass of [_prepareImage] gives every claimed tile that is not
    ['loaded'] that state and the texture of the source, and leaves a
    ['loaded'] tile as it is.  No call other than [prepare()] and
    [_prepareImage()] makes a tile ['loaded'] or writes its texture. *)
Theorem loadTile_defers_loaded w r tile :
  heap w !! r = Some tile →
  is_anchor (this w) tile = true →
  ∃ w1 tile1,
    loadTile r w = (w1, [None])
    ∧ claimed w1 r
    ∧ heap w1 !! r = Some tile1
    ∧ tile_state tile1 = tile_state tile
    ∧ tile_texture tile1 = tile_texture tile
    ∧ (∀ img resize,
         let w2 := _prepareImage img resize w1 in
         ∃ tile2,
           heap w2 !! r = Some tile2
           ∧ (tile_state tile ≠ "loaded" →
              tile_state tile2 = "loaded"
              ∧ tile_texture tile2 = texture (this w2))
           ∧ (tile_state tile = "loaded" →
              tile_state tile2 = "loaded"
              ∧ tile_texture tile2 = tile_texture tile))
    ∧ (∀ w2 img resize r2 t2,
         claimed w2 r2 →
         heap w2 !! r2 = Some t2 →
         let w3 := _prepareImage img resize w2 in
         ∃ t3,
           heap w3 !! r2 = Some t3
           ∧ (tile_state t2 ≠ "loaded" →
              tile_state t3 = "loaded" ∧ tile_texture t3 = texture (this w3))
           ∧ (tile_state t2 = "loaded" → t3 = t2))
    ∧ (∀ w2 c r2 t3,
         is_prepare c = false →
         heap (step w2 c) !! r2 = Some t3 →
         ∃ t2, heap w2 !! r2 = Some t2
               ∧ tile_texture t3 = tile_texture t2
               ∧ (tile_state t3 = "loaded" → tile_state t2 = "loaded")).
Proof.
  intros Hr Ha.
  assert (Hpass : ∀ w2 img resize r2 t2,
             claimed w2 r2 →
             heap w2 !! r2 = Some t2 →
             ∃ t3,
               heap (_prepareImage img resize w2) !! r2 = Some t3
               ∧ (tile_state t2 ≠ "loaded" →
                  tile_state t3 = "loaded"
                  ∧ tile_texture t3
                    = texture (this (_prepareImage img resize w2)))
               ∧ (tile_state t2 = "loaded" → t3 = t2)).
  { intros w2 img resize r2 t2 Hc Ht2.
    pose proof (_prepareImage_claimed img resize w2 r2 Hc) as Hh.
    cbv zeta in Hh. rewrite Ht2 in Hh. eexists. split; [exact Hh|].
    unfold mark_loaded. by case_decide. }
  rewrite (loadTile_anchor w r tile Hr Ha).
  eexists _, (set_tile_buckets ∅ tile). split; [done|].
  assert (Hclaimed : claimed
            (set_heap (alter (set_tile_buckets ∅) r)
               (set_this (λ s, set_tiles
                                 (<[String (tc_w (tile_coord tile)) := r]> (tiles s)) s)
                  w)) r).
  { exists (String (tc_w (tile_coord tile))). cbn. apply lookup_insert_eq. }
  assert (Hlookup : heap
            (set_heap (alter (set_tile_buckets ∅) r)
               (set_this (λ s, set_tiles
                                 (<[String (tc_w (tile_coord tile)) := r]> (tiles s)) s)
                  w)) !! r = Some (set_tile_buckets ∅ tile)).
  { cbn. by rewrite lookup_alter_eq, Hr. }
  repeat (split; [done|]). split; [|split; [exact Hpass|]].
  - intros img resize.
    destruct (Hpass _ img resize r _ Hclaimed Hlookup) as (t3 & Ht3 & Hn & Hy).
    exists t3. split; [done|]. split; [done|].
    intros Hs. by rewrite (Hy Hs).
  - intros w2 c r2 t3 Hc Ht3.
    pose proof (step_effects w2 c) as Heff. rewrite Hc in Heff.
    exact (effects_tiles _ _ _ _ Heff Ht3).
Qed.

(** ** [serialize] *)

Lemma serialize_keys (s : @ImageSource number) :
  dom (serialize s) = {["type"; "urls"; "coordinates"]}.
Proof. unfold serialize. rewrite !dom_insert_L, dom_empty_L. set_solver. Qed.

Lemma serialize_no_url (s : @ImageSource number) : serialize s !! "url" = None.
Proof. unfold serialize. by rewrite !lookup_insert_ne. Qed.

(** The corners do come back through the constructor. *)
Lemma serialize_coordinates (s : @ImageSource number) id d e :
  coordinates (ImageSource_new id (serialize s) d e) = coordinates s.
Proof.
  unfold ImageSource_new, serialize, get; cbn.
  rewrite lookup_insert_ne, lookup_insert_ne, lookup_insert_eq by done.
  by destruct (coordinates s).
Qed.

End Results.

(** * The methods on exact numbers *)

(** [Math.floor] is the floor: the largest integer not above. *)
Lemma Q_Math_floor_spec (x : Q) :
  (Math_floor x <= x)%Q ∧ (x < Math_floor x + 1)%Q.
Proof.
  change (Math_floor x) with (inject_Z (Qfloor x)).
  split; [apply Qfloor_le|].
  pose proof (Qlt_floor x) as Hlt.
  rewrite inject_Z_plus in Hlt. exact Hlt.
Qed.

(** [Math.round] is rounding to the nearest integer, a tie going up. *)
Lemma Q_Math_round_nearest (x : Q) :
  (x - (1 # 2) < Math_round x)%Q ∧ (Math_round x <= x + (1 # 2))%Q.
Proof.
  change (Math_round x) with (inject_Z (Qfloor (x + (1 # 2)))).
  split.
  - pose proof (Qlt_floor (x + (1 # 2))) as Hlt.
    rewrite inject_Z_plus in Hlt.
    apply Qplus_lt_l with (z := 1%Q).
    eapply Qle_lt_trans; [|exact Hlt].
    ring_simplify. apply Qle_refl.
  - apply Qfloor_le.
Qed.

(** It is not truncation towards zero. *)
Example Q_Math_round_not_trunc :
  Math_round (34955 # 10)%Q = 3496%Q ∧ Q_trunc (34955 # 10)%Q = 3495%Q
  ∧ Math_round (-(7 # 10))%Q = (-1)%Q ∧ Q_trunc (-(7 # 10))%Q = 0%Q.
Proof. by vm_compute. Qed.

Example example_loaded_geometry :
  geometry example_loaded
  = (Some (mkTileCoord 14 4709 4626 0)%Q,
     Some [ mkVertex (-3444) (-2053) 0 0; mkVertex 4012 (-2053) 8192 0;
            mkVertex (-3444) 5403 0 8192; mkVertex 4012 5403 8192 8192 ]%Q).
Proof. by vm_compute. Qed.

(** ** C2 *)

Lemma setCoordinates_pins_zoom_witness :
  map_ (this example_attached) = Some flat_map
  ∧ ∃ w' c,
      setCoordinates example_coordinates example_attached = Normal w'
      ∧ coord (this w') = Some c
      ∧ tc_z c = zoom (best_fit flat_map example_coordinates)
      ∧ minzoom (this w') = tc_z c
      ∧ maxzoom (this w') = tc_z c
      ∧ ∀ calls, zoom_pinned (run calls w').
Proof.
  split; [reflexivity|].
  apply (setCoordinates_pins_zoom example_attached example_coordinates flat_map).
  reflexivity.
Defined.

(** ** C3 *)

Example example_corner_points :
  corner_point flat_map example_coordinates 2 = Some (mkPoint 4012 5403)%Q
  ∧ corner_point flat_map example_coordinates 3 = Some (mkPoint (-3444) 5403)%Q
  ∧ (_boundsArray (this example_loaded) ≫= (.!! 2%nat))
    = Some (mkVertex (-3444) 5403 0 8192)%Q.
Proof. by vm_compute. Qed.

Lemma setCoordinates_vertex_order_witness :
  map_ (this example_attached) = Some flat_map
  ∧ ∃ w' p0 p1 p2 p3,
      setCoordinates example_coordinates example_attached = Normal w'
      ∧ corner_point flat_map example_coordinates 0 = Some p0
      ∧ corner_point flat_map example_coordinates 1 = Some p1
      ∧ corner_point flat_map example_coordinates 2 = Some p2
      ∧ corner_point flat_map example_coordinates 3 = Some p3
      ∧ _boundsArray (this w')
        = Some [ vertex p0 (lit 0) (lit 0); vertex p1 EXTENT (lit 0);
                 vertex p3 (lit 0) EXTENT; vertex p2 EXTENT EXTENT ]
      ∧ (p3 ≠ p2 →
         ∀ arr, _boundsArray (this w') = Some arr →
                arr !! 2%nat ≠ Some (vertex p2 (lit 0) EXTENT)).
Proof.
  split; [reflexivity|].
  apply (setCoordinates_vertex_order example_attached example_coordinates
           flat_map).
  reflexivity.
Defined.

(** ** C4 *)

Lemma setCoordinates_vertex_position_witness :
  map_ (this example_loaded) = Some flat_map
  ∧ quad_nth update_coordinates 0
    = Some (-(7654335737228394 # 100000000000000),
            3918579907229748 # 100000000000000)%Q
  ∧ ∃ w' arr v,
      setCoordinates update_coordinates example_loaded = Normal w'
      ∧ coord (this w') = Some (mkTileCoord 14 4708 4625 0)%Q
      ∧ _boundsArray (this w') = Some arr
      ∧ arr !! 0%nat = Some v
      ∧ a_pos_x v = 3496%Q
      ∧ a_pos_y v = 1814%Q
      ∧ Q_trunc
          (mul (sub (column (zoomTo (cornerZ0Coord flat_map
                                       (-(7654335737228394 # 100000000000000),
                                        3918579907229748 # 100000000000000)%Q)
                               (lit 14)))
                  (lit 4708))
             EXTENT)
        = 3495%Q.
Proof.
  split; [reflexivity|]. split; [reflexivity|].
  destruct (setCoordinates_vertex_position example_loaded update_coordinates
              flat_map 0
              (-(7654335737228394 # 100000000000000),
               3918579907229748 # 100000000000000)%Q
              eq_refl eq_refl)
    as (w' & arr & v & Hret & Hcoord & Harr & Hv & Hx & Hy).
  exists w', arr, v. split; [exact Hret|]. split; [exact Hcoord|].
  split; [exact Harr|]. split; [exact Hv|]. split; [exact Hx|].
  split; [exact Hy|reflexivity].
Defined.

(** ** C5 *)

Lemma prepare_texture_lifecycle_witness :
  ∃ w1 t,
    prepare example_claimed = Normal w1
    ∧ texture (this w1) = Some t
    ∧ textureLoaded (this w1) = true
    ∧ texture_calls w1 = texture_calls example_claimed ++ full_upload t foo_png
    ∧ ∀ calls,
        texture_creations (run calls w1) = S (texture_creations example_claimed).
Proof.
  destruct (prepare_texture_lifecycle example_claimed foo_png flat_map)
    as (w1 & t & Hret & Ht & Hl & Hcalls & _ & _ & Hever & _).
  - vm_compute. discriminate.
  - reflexivity.
  - reflexivity.
  - reflexivity.
  - exists w1, t. split; [exact Hret|]. split; [exact Ht|].
    split; [exact Hl|]. split; [exact Hcalls|exact Hever].
Defined.

(** ** C6 *)

Lemma setCoordinates_destroys_buffer_witness :
  map_ (this example_prepared) = Some flat_map
  ∧ boundsBuffer (this example_prepared) = Some 0%nat
  ∧ ∃ w',
      setCoordinates example_coordinates example_prepared = Normal w'
      ∧ boundsBuffer (this w') = None
      ∧ gl_calls (gl w')
        = gl_calls (gl example_prepared) ++ [VertexBuffer_destroy 0%nat]
      ∧ texture (this w') = texture (this example_prepared)
      ∧ textureLoaded (this w') = textureLoaded (this example_prepared).
Proof.
  split; [reflexivity|]. split; [reflexivity|].
  destruct (setCoordinates_destroys_buffer example_prepared
              example_coordinates flat_map 0%nat eq_refl eq_refl)
    as (w' & Hret & Hb & Hgl & Htex & Hl & _).
  exists w'. split; [exact Hret|]. split; [exact Hb|]. split; [exact Hgl|].
  split; [exact Htex|exact Hl].
Defined.

(** ** C7 *)

Example loadTile_5_10_12 :
  (loadTile 0%nat anchored_5_10_12).2 = [None]
  ∧ tiles (this (loadTile 0%nat anchored_5_10_12).1) !! "0" = Some 0%nat
  ∧ (tile_state <$> heap (loadTile 0%nat anchored_5_10_12).1 !! 0%nat)
    = Some "loading"
  ∧ (tile_buckets <$> heap (loadTile 0%nat anchored_5_10_12).1 !! 0%nat)
    = Some ∅
  ∧ (loadTile 1%nat anchored_5_10_12).2 = [None]
  ∧ tiles (this (loadTile 1%nat anchored_5_10_12).1) = ∅
  ∧ (tile_state <$> heap (loadTile 1%nat anchored_5_10_12).1 !! 1%nat)
    = Some "errored".
Proof. by vm_compute. Qed.

Lemma loadTile_reports_success_witness :
  heap anchored_5_10_12 !! 1%nat = Some (tile_at 5 10 13 0)
  ∧ ∃ w',
      loadTile 1%nat anchored_5_10_12 = (w', [None])
      ∧ this w' = this anchored_5_10_12
      ∧ heap w'
        = <[1%nat := set_tile_state "errored" (tile_at 5 10 13 0)]>
            (heap anchored_5_10_12).
Proof.
  split; [reflexivity|].
  destruct (loadTile_reports_success anchored_5_10_12 1%nat
              (tile_at 5 10 13 0) eq_refl)
    as (w' & Hret & _ & _ & Hother & _).
  exists w'. split; [exact Hret|]. apply Hother. reflexivity.
Defined.

(** ** C8 *)

Lemma prepare_noop_witness :
  (tiles (this example_world) = ∅ ∨ image (this example_world) = None)
  ∧ ∃ w',
      prepare example_world = Normal w'
      ∧ w' = example_world
      ∧ gl_calls (gl w') = gl_calls (gl example_world)
      ∧ texture_creations w' = texture_creations example_world
      ∧ buffer_creations w' = buffer_creations example_world
      ∧ heap w' = heap example_world.
Proof.
  split; [left; reflexivity|].
  apply (prepare_noop example_world). left. reflexivity.
Defined.

(** ** C9 *)

Lemma setCoordinates_deterministic_witness :
  map_ (this example_attached) = Some flat_map
  ∧ ∃ w1 w2,
      setCoordinates example_coordinates example_attached = Normal w1
      ∧ setCoordinates example_coordinates w1 = Normal w2
      ∧ geometry w2 = geometry w1.
Proof.
  split; [reflexivity|].
  destruct (setCoordinates_deterministic example_attached example_coordinates
              flat_map eq_refl)
    as (w1 & w2 & H1 & H2 & Hgeo & _).
  exists w1, w2. split; [exact H1|]. split; [exact H2|exact Hgeo].
Defined.

(** ** C10 *)

Lemma loadTile_defers_loaded_witness :
  heap anchored_5_10_12 !! 0%nat = Some (tile_at 5 10 12 0)
  ∧ is_anchor (this anchored_5_10_12) (tile_at 5 10 12 0) = true
  ∧ ∃ w1 tile1,
      loadTile 0%nat anchored_5_10_12 = (w1, [None])
      ∧ claimed w1 0%nat
      ∧ heap w1 !! 0%nat = Some tile1
      ∧ tile_state tile1 = "loading"
      ∧ tile_texture tile1 = None.
Proof.
  assert (Ha : is_anchor (this anchored_5_10_12) (tile_at 5 10 12 0) = true)
    by reflexivity.
  split; [reflexivity|]. split; [exact Ha|].
  destruct (loadTile_defers_loaded anchored_5_10_12 0%nat (tile_at 5 10 12 0)
              eq_refl Ha)
    as (w1 & tile1 & Hret & Hc & Hh & Hs & Ht & _).
  exists w1, tile1. split; [exact Hret|]. split; [exact Hc|].
  split; [exact Hh|]. split; [exact Hs|exact Ht].
Defined.

(** ** C1 *)

(** C1. [serialize()] of the loaded example: the locator is stored under
    the key [urls]; the object has no key [url].  A source constructed
    from the object has the corners and, on the same map with the same
    raster, the anchor tile and the vertices of the original, but its
    options hold no [url]: it asks for the raster of [undefined]. *)
Theorem serialize_writes_urls :
  let s := this example_loaded in
  let o := serialize s in
  url s = JSString example_url
  ∧ o !! "type" = Some (JSString "image")
  ∧ o !! "coordinates" = Some (JSCoordinates example_coordinates)
  ∧ o !! "urls" = Some (JSString example_url)
  ∧ o !! "url" = None
  ∧ get (options (ImageSource_new "some id" o 0%nat 0%nat)) "url" = undefined
  ∧ coordinates (ImageSource_new "some id" o 0%nat 0%nat) = coordinates s
  ∧ url (this example_revived) = undefined
  ∧ requested example_revived = [undefined]
  ∧ requested example_loaded = [JSString example_url]
  ∧ geometry example_revived = geometry example_loaded.
Proof. by vm_compute. Qed.

(** * The life of a source *)

Section Lifecycle_results.
Context {number : Type} `{!JSNumber number} `{!Collaborators (number:=number)}.
Implicit Types (w : @World number) (map : @Map number).
Implicit Types (corners : Quad (number * number)).

Local Arguments setCoordinates : simpl never.

(** ** More on [setCoordinates] *)

Lemma setCoordinates_events w corners map :
  map_ (this w) = Some map →
  let w' := world_of (setCoordinates corners w) in
  fired w' = fired w ++ [ev_content]
  ∧ requested w' = requested w
  ∧ url (this w') = url (this w).
Proof.
  intros Hmap. unfold setCoordinates; cbn.
  destruct corners as [[[? ?] ?] ?]; cbn. rewrite Hmap. cbn.
  by destruct (boundsBuffer (this w)).
Qed.

Lemma setCoordinates_quad w corners map :
  map_ (this w) = Some map →
  _boundsArray (this (world_of (setCoordinates corners w)))
  = quad_vertices map corners.
Proof.
  intros Hmap.
  destruct (setCoordinates_boundsArray w corners map Hmap)
    as (p0 & p1 & p2 & p3 & H0 & H1 & H2 & H3 & ->).
  unfold quad_vertices. by rewrite H0, H1, H2, H3.
Qed.

(** ** The calls as sequences of actions *)

Lemma _finishLoading_actions w : rtc action w (world_of (_finishLoading w)).
Proof.
  unfold _finishLoading.
  destruct (map_ (this w)) as [m|] eqn:Hmap; [|done].
  destruct (coordinates (this w)) as [c|]; [|done].
  rewrite (setCoordinates_returns _ _ _ Hmap). cbn.
  eapply rtc_l; [apply (action_setCoordinates c)|].
  apply rtc_once, action_fire.
Qed.

Lemma load_actions w : rtc action w (world_of (load w)).
Proof.
  unfold load.
  eapply rtc_l; [apply (action_fire "dataloading" [("dataType", "source")])|].
  eapply rtc_l; [apply action_url|].
  cbn. destruct (map_ (this w)); cbn; [|done].
  apply rtc_once, action_getImage.
Qed.

Lemma step_actions w c : rtc action w (step w c).
Proof.
  destruct c as [c| |img resize|r| | |err img|m]; cbn.
  - apply rtc_once, action_setCoordinates.
  - destruct (prepare_world w) as [->|(img & _ & ->)]; [done|].
    apply rtc_once, action_prepareImage.
  - apply rtc_once, action_prepareImage.
  - apply rtc_once, action_loadTile.
  - done.
  - apply load_actions.
  - unfold getImage_callback. destruct err as [[|msg]|].
    + apply rtc_once, action_fire.
    + apply rtc_once, action_fire.
    + destruct img as [img|]; [|done].
      eapply rtc_l; [apply (action_image img)|].
      apply _finishLoading_actions.
  - unfold onAdd. eapply rtc_l; [apply (action_map m)|].
    apply load_actions.
Qed.

Lemma run_actions cs w : rtc action w (run cs w).
Proof.
  revert w. induction cs as [|c cs IH]; intros w; cbn; [done|].
  etrans; [apply step_actions|apply IH].
Qed.

(** An invariant of the actions is an invariant of every history. *)
Lemma run_invariant (P : @World number → Prop) :
  (∀ w w', action w w' → P w → P w') →
  ∀ cs w, P w → P (run cs w).
Proof.
  intros Hact cs w Hw.
  induction (run_actions cs w) as [|w1 w2 w3 Hstep _ IH]; eauto.
Qed.

Lemma run_app cs1 cs2 w : run (cs1 ++ cs2) w = run cs2 (run cs1 w).
Proof. apply foldl_app. Qed.

(** ** Loading *)

(** The world in which [_finishLoading] runs after [onAdd(map)] and the
    arrival of [img]. *)
Lemma run_added w map img c :
  coordinates (this w) = Some c →
  ∃ w2,
    run (added map img) w
    = fire "data" [("dataType", "source"); ("sourceDataType", "metadata")]
        (world_of (setCoordinates c w2))
    ∧ map_ (this w2) = Some map
    ∧ image (this w2) = Some img
    ∧ url (this w2) = get (options (this w)) "url"
    ∧ fired w2 = fired w ++ [ev_dataloading]
    ∧ requested w2 = requested w ++ [get (options (this w)) "url"]
    ∧ heap w2 = heap w
    ∧ gl w2 = gl w
    ∧ tiles (this w2) = tiles (this w)
    ∧ texture (this w2) = texture (this w)
    ∧ textureLoaded (this w2) = textureLoaded (this w)
    ∧ options (this w2) = options (this w).
Proof.
  intros Hc. eexists. split.
  - unfold added, run; cbn. unfold onAdd, load; cbn.
    unfold getImage_callback, _finishLoading; cbn. rewrite Hc.
    erewrite setCoordinates_returns by reflexivity. reflexivity.
  - by cbn.
Qed.

(** X1. [onAdd(map)] followed by the arrival of the raster: the source
    asks once for [options.url], keeps the raster, builds the anchor and
    the quad of the corners it was constructed with, pins its zoom range
    and fires [dataloading], [data]/content, [data]/metadata in that order;
    no tile and no texture is touched. *)
Theorem onAdd_then_image w map img c :
  coordinates (this w) = Some c →
  let w' := run (added map img) w in
  fired w' = fired w ++ [ev_dataloading; ev_content; ev_metadata]
  ∧ requested w' = requested w ++ [get (options (this w)) "url"]
  ∧ url (this w') = get (options (this w)) "url"
  ∧ image (this w') = Some img
  ∧ map_ (this w') = Some map
  ∧ coordinates (this w') = Some c
  ∧ coord (this w') = Some (anchor_tile map c)
  ∧ minzoom (this w') = zoom (anchor map c)
  ∧ maxzoom (this w') = zoom (anchor map c)
  ∧ _boundsArray (this w') = quad_vertices map c
  ∧ heap w' = heap w
  ∧ texture_calls w' = texture_calls w
  ∧ tiles (this w') = tiles (this w).
Proof.
  intros Hc. cbv zeta.
  destruct (run_added w map img c Hc)
    as (w2 & -> & Hmap & Himg & Hurl & Hfired & Hreq & Hheap & Hgl & Htiles & _).
  destruct (setCoordinates_events w2 c map Hmap) as (Hf & Hr & Hu).
  destruct (setCoordinates_anchor w2 c map Hmap) as (_ & Hcoord & Hmin & Hmax).
  destruct (setCoordinates_frame w2 c)
    as (Hh & _ & _ & Ht & Hi & Hm & _ & Hcs).
  destruct (setCoordinates_buffer w2 c map Hmap) as (_ & Hgl2).
  cbn.
  split; [by rewrite Hf, Hfired, <- !app_assoc|].
  split; [by rewrite Hr, Hreq|].
  split; [by rewrite Hu|].
  split; [by rewrite Hi|].
  split; [by rewrite Hm|].
  split; [done|]. split; [done|]. split; [done|]. split; [done|].
  split; [by apply setCoordinates_quad|].
  split; [by rewrite Hh|].
  split; [|by rewrite Ht].
  unfold texture_calls. cbn. rewrite Hgl2, Hgl.
  destruct (boundsBuffer (this w2)); [|done].
  cbn. by rewrite filter_app, app_nil_r.
Qed.

(** X2. When the request of the raster fails, the callback fires one
    [error] event after [dataloading] and nothing else happens, whatever
    comes with the error: no raster is kept, the geometry, the zoom range,
    the tiles and the context are as before, and [prepare()] of a source
    without a raster is still a no-op. *)
Theorem getImage_failure w map err img :
  let w' := run [call_onAdd map; call_getImage_callback (Some err) img] w in
  (∃ msg, fired w'
          = fired w ++ [ev_dataloading; Fire "error" [("error", msg)]])
  ∧ requested w' = requested w ++ [get (options (this w)) "url"]
  ∧ image (this w') = image (this w)
  ∧ coordinates (this w') = coordinates (this w)
  ∧ geometry w' = geometry w
  ∧ minzoom (this w') = minzoom (this w)
  ∧ maxzoom (this w') = maxzoom (this w)
  ∧ heap w' = heap w
  ∧ gl w' = gl w
  ∧ (image (this w) = None → prepare w' = Normal w').
Proof.
  cbv zeta. unfold run; cbn. unfold onAdd, load; cbn.
  unfold getImage_callback.
  destruct err as [|msg]; cbn.
  all: split; [eexists; by rewrite <- app_assoc|].
  all: repeat (split; [done|]).
  all: intros Hnone; apply prepare_skips; right; exact Hnone.
Qed.

(** X3. A source constructed from options without [coordinates] throws a
    TypeError when its raster arrives on a map: the raster is kept, but
    no [data] event is fired, no anchor is selected and the zoom range
    stays that of the constructor. *)
Theorem image_without_coordinates id options d e cache map img :
  options !! "coordinates" = None →
  let w1 := run [call_onAdd map] (created id options d e cache) in
  let w2 := set_this (set_image (Some img)) w1 in
  getImage_callback None (Some img) w1 = Throw TypeError w2
  ∧ fired w2 = [ev_dataloading]
  ∧ coord (this w2) = None
  ∧ _boundsArray (this w2) = None
  ∧ minzoom (this w2) = lit 0
  ∧ maxzoom (this w2) = lit 22.
Proof.
  intros Hnone. cbv zeta. unfold run; cbn. unfold onAdd, load; cbn.
  unfold getImage_callback, _finishLoading, get; cbn. by rewrite Hnone.
Qed.

(** X4. [setCoordinates] on a source that has no map yet throws a
    TypeError, but the corners are recorded before it does: the geometry
    built when the raster arrives, once the source is added to a map, is
    that of the corners of the failed call. *)
Theorem setCoordinates_before_onAdd w corners map img :
  map_ (this w) = None →
  ∃ w1,
    setCoordinates corners w = Throw TypeError w1
    ∧ geometry w1 = geometry w
    ∧ fired w1 = fired w
    ∧ coordinates (this w1) = Some corners
    ∧ let w2 := run (added map img) w1 in
      coordinates (this w2) = Some corners
      ∧ coord (this w2) = Some (anchor_tile map corners)
      ∧ _boundsArray (this w2) = quad_vertices map corners.
Proof.
  intros Hmap. eexists. split; [by apply setCoordinates_throws|].
  repeat (split; [done|]). cbv zeta.
  destruct (run_added (set_this (set_coordinates (Some corners)) w) map img
              corners eq_refl) as (w2 & -> & Hmap2 & _).
  destruct (setCoordinates_anchor w2 corners map Hmap2) as (_ & Hcoord & _).
  destruct (setCoordinates_frame w2 corners) as (_ & _ & _ & _ & _ & _ & _ & Hcs).
  cbn. split; [done|]. split; [done|]. by apply setCoordinates_quad.
Qed.

(** X5. Whatever the state of the source, and whether the call returns or
    throws, [serialize()] after [setCoordinates(corners)] lists these
    corners, and a source constructed from the result starts with them;
    the [type] and [urls] entries are those of before the call. *)
Theorem setCoordinates_serialize w corners id d e :
  let s := this (world_of (setCoordinates corners w)) in
  serialize s !! "coordinates" = Some (JSCoordinates corners)
  ∧ coordinates (ImageSource_new id (serialize s) d e) = Some corners
  ∧ serialize s !! "type" = Some (JSString "image")
  ∧ serialize s !! "urls" = serialize (this w) !! "urls".
Proof.
  cbv zeta.
  destruct (setCoordinates_frame w corners)
    as (_ & _ & _ & _ & _ & _ & Hopt & Hcs).
  split; [|split; [|split]].
  - unfold serialize. rewrite Hcs.
    by rewrite lookup_insert_ne, lookup_insert_ne, lookup_insert_eq.
  - by rewrite serialize_coordinates.
  - unfold serialize. by rewrite lookup_insert_eq.
  - unfold serialize. rewrite Hopt.
    by rewrite !(lookup_insert_ne _ "type" "urls"), !lookup_insert_eq.
Qed.

(** ** What the actions leave alone *)

Ltac case_prepareImage :=
  unfold _prepareImage; repeat (cbn in *; case_match); cbn in *.

Lemma action_effect w w' : action w w' → effect true w w'.
Proof. destruct 1; constructor. Qed.

(** The source after [loadTile]: as it was, or with one more claim. *)
Lemma loadTile_source w r :
  this (loadTile r w).1 = this w
  ∨ ∃ tile,
      heap w !! r = Some tile
      ∧ is_anchor (this w) tile = true
      ∧ this (loadTile r w).1
        = set_tiles (<[String (tc_w (tile_coord tile)) := r]> (tiles (this w)))
            (this w).
Proof.
  unfold loadTile. destruct (heap w !! r) as [tile|]; [|by left].
  destruct (is_anchor (this w) tile) eqn:Ha; [|by left].
  right. by exists tile.
Qed.

Lemma loadTile_world w r :
  gl (loadTile r w).1 = gl w
  ∧ fired (loadTile r w).1 = fired w
  ∧ requested (loadTile r w).1 = requested w.
Proof. unfold loadTile. by repeat (cbn; case_match). Qed.

Lemma _prepareImage_source img resize w :
  let w' := _prepareImage img resize w in
  constants (this w') = constants (this w)
  ∧ coordinates (this w') = coordinates (this w)
  ∧ centerCoord (this w') = centerCoord (this w)
  ∧ url (this w') = url (this w)
  ∧ requested w' = requested w
  ∧ is_Some (boundsBuffer (this w'))
  ∧ is_Some (boundsVAO (this w')).
Proof. case_prepareImage. all: repeat split; by eauto. Qed.

Lemma setCoordinates_constants w corners :
  constants (this (world_of (setCoordinates corners w))) = constants (this w).
Proof.
  unfold setCoordinates; cbn. destruct corners as [[[? ?] ?] ?]; cbn.
  destruct (map_ (this w)); cbn; [|done].
  by destruct (boundsBuffer (this w)).
Qed.

Lemma setCoordinates_boundsBuffer_throw w corners :
  map_ (this w) = None →
  boundsBuffer (this (world_of (setCoordinates corners w)))
  = boundsBuffer (this w)
  ∧ gl (world_of (setCoordinates corners w)) = gl w
  ∧ coord (this (world_of (setCoordinates corners w))) = coord (this w).
Proof. intros Hmap. by rewrite (setCoordinates_throws _ _ Hmap). Qed.

(** ** Counting the calls on the context *)

Lemma count_snoc (P : @GLCall number → bool) l c :
  length (filter P (l ++ [c]))
  = (length (filter P l) + (if P c then 1 else 0))%nat.
Proof.
  rewrite filter_app, length_app. f_equal.
  rewrite filter_cons, filter_nil. destruct (P c); by case_decide.
Qed.

Lemma _prepareImage_buffers img resize w :
  let w' := _prepareImage img resize w in
  buffer_creations w'
  = (buffer_creations w
     + (if boundsBuffer (this w) is Some _ then 0 else 1))%nat
  ∧ buffer_destructions w' = buffer_destructions w.
Proof.
  unfold buffer_creations, buffer_destructions. case_prepareImage.
  all: rewrite ?count_snoc; cbn; split; lia.
Qed.

(** ** Invariants of a source *)

Lemma action_buffers_balanced w w' :
  action w w' → buffers_balanced w → buffers_balanced w'.
Proof.
  unfold buffers_balanced.
  destruct 1 as [| | | | |c w|r w|img resize w]; try done; intros Hbal.
  - destruct (map_ (this w)) as [m|] eqn:Hmap.
    + destruct (setCoordinates_buffer w c m Hmap) as (-> & Hgl).
      unfold buffer_creations, buffer_destructions in *. rewrite Hgl.
      destruct (boundsBuffer (this w)); cbn; rewrite ?count_snoc; cbn; lia.
    + destruct (setCoordinates_boundsBuffer_throw w c Hmap) as (Hb & Hgl & _).
      unfold buffer_creations, buffer_destructions in *. by rewrite Hb, Hgl.
  - destruct (loadTile_world w r) as (Hgl & _).
    unfold buffer_creations, buffer_destructions in *. rewrite Hgl.
    by destruct (loadTile_source w r) as [->|(tile & _ & _ & ->)].
  - destruct (_prepareImage_buffers img resize w) as (-> & ->).
    destruct (_prepareImage_source img resize w)
      as (_ & _ & _ & _ & _ & [b ->] & _).
    destruct (boundsBuffer (this w)); lia.
Qed.

(** X6. No vertex buffer leaks: through every history of calls on a
    source, each vertex buffer that was built has been destroyed, except
    the one the source holds, if it holds one. *)
Theorem vertex_buffers_balanced id options d e cache calls :
  let w := run calls (created id options d e cache) in
  buffer_creations w
  = (buffer_destructions w
     + (if boundsBuffer (this w) is Some _ then 1 else 0))%nat.
Proof.
  apply (run_invariant buffers_balanced); [apply action_buffers_balanced|].
  reflexivity.
Qed.

Lemma action_texture_once w w' :
  action w w' → texture_once w → texture_once w'.
Proof.
  unfold texture_once.
  destruct 1 as [| | | | |c w|r w|img resize w]; try done; intros (Hn & Hiff).
  - destruct (setCoordinates_frame w c) as (_ & -> & -> & _).
    by rewrite setCoordinates_creations.
  - destruct (loadTile_this w r) as (_ & _ & _ & -> & -> & Hgl).
    unfold texture_creations in *. by rewrite Hgl.
  - destruct (_prepareImage_this img resize w)
      as (_ & _ & _ & _ & _ & _ & _ & _ & Hl).
    rewrite Hl. destruct (textureLoaded (this w)) eqn:Hl0.
    + destruct (_prepareImage_later img resize w Hl0) as (-> & Hcalls).
      rewrite (texture_creations_calls _ _ _ Hcalls), Hn.
      split; [|done].
      by destruct resize, (is_streaming img).
    + destruct (_prepareImage_first img resize w Hl0) as (t & -> & Hcalls).
      rewrite (texture_creations_calls _ _ _ Hcalls), Hn.
      split; [reflexivity|]. split; [by eexists|done].
Qed.

(** X7. A source creates one texture at most: through every history of
    calls, the context has been asked for a texture once if
    [textureLoaded] is set and never if it is not, and the source holds a
    texture handle exactly when the flag is set. *)
Theorem texture_created_once id options d e cache calls :
  let w := run calls (created id options d e cache) in
  texture_creations w = (if textureLoaded (this w) then 1 else 0)%nat
  ∧ (textureLoaded (this w) = true ↔ is_Some (texture (this w))).
Proof.
  apply (run_invariant texture_once); [apply action_texture_once|].
  split; [reflexivity|]. cbn. split; [done|]. by intros [? ?].
Qed.

Lemma action_zoom_range w w' :
  action w w' →
  zoom_initial w ∨ zoom_pinned w → zoom_initial w' ∨ zoom_pinned w'.
Proof.
  intros Hact [Hinit|Hpin].
  2: { right. by eapply effect_zoom_pinned; [apply action_effect|]. }
  revert Hinit. unfold zoom_initial.
  destruct Hact as [| | | | |c w|r w|img resize w]; try by left.
  - intros Hinit. destruct (map_ (this w)) as [m|] eqn:Hmap.
    + right. unfold zoom_pinned.
      destruct (setCoordinates_anchor w c m Hmap) as (_ & -> & -> & ->).
      by eexists.
    + left. by rewrite (setCoordinates_throws _ _ Hmap).
  - destruct (loadTile_this w r) as (-> & -> & -> & _). by left.
  - destruct (_prepareImage_this img resize w) as (-> & -> & -> & _). by left.
Qed.

(** X8. The zoom range of a source is either the one of the constructor,
    0 to 22, with no anchor selected, or pinned to the zoom of the
    anchor: no history of calls leaves anything else. *)
Theorem zoom_range_initial_or_pinned id options d e cache calls :
  let w := run calls (created id options d e cache) in
  (coord (this w) = None
   ∧ minzoom (this w) = lit 0 ∧ maxzoom (this w) = lit 22)
  ∨ (∃ c, coord (this w) = Some c
          ∧ minzoom (this w) = tc_z c ∧ maxzoom (this w) = tc_z c).
Proof.
  apply (run_invariant (λ w, zoom_initial w ∨ zoom_pinned w));
    [apply action_zoom_range|].
  by left.
Qed.

Lemma action_attached w w' :
  action w w' →
  well_attached w ∧ geometry_current w →
  well_attached w' ∧ geometry_current w'.
Proof.
  unfold well_attached, geometry_current.
  destruct 1 as [| | | |m w|c w|r w|img resize w]; try done.
  - (* [this.map = map] *)
    intros ((Ht & Hm) & Hgeo). cbn. split; [split; [done|by eauto]|].
    intros tc Htc. destruct (Hgeo tc Htc) as (_ & Hcur). by split; [eauto|].
  - (* [setCoordinates] *)
    intros ((Ht & Hm) & Hgeo). destruct (map_ (this w)) as [m|] eqn:Hmap.
    + destruct (setCoordinates_anchor w c m Hmap) as (Hcc & Hcoord & _).
      destruct (setCoordinates_frame w c)
        as (_ & _ & _ & Htiles & _ & Hmap' & _ & Hcs).
      rewrite Hcoord, Htiles, Hmap', Hmap, Hcs, Hcc.
      split; [by split; eauto|].
      intros tc [= <-]. split; [by eauto|]. exists m, c.
      repeat (split; [done|]). by apply setCoordinates_quad.
    + rewrite (setCoordinates_throws _ _ Hmap). cbn. rewrite Hmap.
      split; [done|]. intros tc Htc.
      destruct (Hm (mk_is_Some _ _ Htc)) as [? ?]. done.
  - (* [loadTile] *)
    intros ((Ht & Hm) & Hgeo).
    destruct (loadTile_source w r) as [->|(tile & _ & Ha & ->)]; [done|].
    cbn. split; [|done]. split; [|done]. intros _.
    apply is_anchor_spec in Ha as (c & -> & _). by eexists.
  - (* [_prepareImage] *)
    destruct (_prepareImage_this img resize w)
      as (-> & _ & _ & -> & _ & -> & -> & _).
    by destruct (_prepareImage_source img resize w) as (_ & -> & -> & _).
Qed.

Lemma created_attached id options d e cache :
  well_attached (created id options d e cache)
  ∧ geometry_current (created id options d e cache).
Proof.
  split; [split|]; cbn.
  - by intros [].
  - by intros [? ?].
  - by intros tc.
Qed.


(** X10. On a source driven through its methods [prepare()] never
    throws; and as long as the source has not been added to a map it has
    no anchor and no claimed tile, and answers every tile request with
    ['errored']. *)
Theorem prepare_never_throws id options d e cache calls :
  let w := run calls (created id options d e cache) in
  (∃ w', prepare w = Normal w')
  ∧ (map_ (this w) = None →
     coord (this w) = None
     ∧ tiles (this w) = ∅
     ∧ ∀ r tile, heap w !! r = Some tile →
         loadTile r w
         = (set_heap (alter (set_tile_state "errored") r) w, [None])).
Proof.
  cbv zeta.
  destruct (run_invariant (λ w, well_attached w ∧ geometry_current w)
              action_attached calls (created id options d e cache)
              (created_attached _ _ _ _ _)) as ((Ht & Hm) & _).
  set (w := run calls (created id options d e cache)) in *. split.
  - unfold prepare. case_bool_decide as Hsize; [by eexists|].
    destruct (image (this w)); [|by eexists].
    assert (is_Some (map_ (this w))) as [m ->]; [|by eexists].
    apply Hm, Ht. intros Hempty. apply Hsize. rewrite Hempty.
    apply map_size_empty.
  - intros Hmap.
    assert (Hcoord : coord (this w) = None).
    { destruct (coord (this w)) eqn:Hc; [|done].
      destruct (Hm (mk_is_Some _ _ eq_refl)) as [? ?]. congruence. }
    split; [done|]. split.
    + destruct (decide (tiles (this w) = ∅)) as [|Hne]; [done|].
      destruct (Ht Hne) as [? ?]. congruence.
    + intros r tile Hr. apply loadTile_other with tile; [done|].
      unfold is_anchor. by rewrite Hcoord.
Qed.



Lemma action_constants w w' :
  action w w' → constants (this w') = constants (this w).
Proof.
  destruct 1 as [| | | | |c w|r w|img resize w]; try done.
  - apply setCoordinates_constants.
  - by destruct (loadTile_source w r) as [->|(tile & _ & _ & ->)].
  - by destruct (_prepareImage_source img resize w) as (-> & _).
Qed.

(** X12. No method assigns the type, the id, the tile size, the options,
    the dispatcher or the parent of a source: after every history of calls
    they are what they were, so that the [type] and [urls] entries of
    [serialize()] never change. *)
Theorem constants_never_change w calls :
  let w' := run calls w in
  constants (this w') = constants (this w)
  ∧ serialize (this w') !! "type" = serialize (this w) !! "type"
  ∧ serialize (this w') !! "urls" = serialize (this w) !! "urls".
Proof.
  cbv zeta.
  assert (Hc : constants (this (run calls w)) = constants (this w)).
  { apply (run_invariant (λ w', constants (this w') = constants (this w)));
      [|done].
    intros w1 w2 Hact <-. by apply action_constants. }
  split; [done|]. unfold constants in Hc. unfold serialize.
  assert (options (this (run calls w)) = options (this w)) as -> by congruence.
  by rewrite !(lookup_insert_ne _ "type" "urls"), !lookup_insert_eq.
Qed.

Lemma action_tiles w w' :
  action w w' → dom (tiles (this w)) ⊆ dom (tiles (this w')).
Proof.
  destruct 1 as [| | | | |c w|r w|img resize w]; try done.
  - by destruct (setCoordinates_frame w c) as (_ & _ & _ & -> & _).
  - destruct (loadTile_source w r) as [->|(tile & _ & _ & ->)]; [done|].
    cbn. rewrite dom_insert_L. set_solver.
  - by destruct (_prepareImage_this img resize w) as (_ & _ & _ & -> & _).
Qed.

(** X13. The claim table never gives a wrap index up: no method removes
    an entry, not even a change of the corners, so that a wrap index
    claimed once is claimed after every later history of calls. *)
Theorem claims_never_removed w calls :
  dom (tiles (this w)) ⊆ dom (tiles (this (run calls w))).
Proof.
  apply (run_invariant (λ w', dom (tiles (this w)) ⊆ dom (tiles (this w'))));
    [|done].
  intros w1 w2 Hact Hsub. etrans; [exact Hsub|by apply action_tiles].
Qed.

(** ** Claims and their tiles *)

Lemma is_anchor_coord (s s' : @ImageSource number) (t t' : @Tile number) :
  coord s = coord s' → tile_coord t = tile_coord t' →
  is_anchor s t = is_anchor s' t'.
Proof. unfold is_anchor. by intros -> ->. Qed.

Lemma mark_loaded_state tx (t : @Tile number) :
  tile_state (mark_loaded tx t) = "loaded"
  ∧ (tile_state t ≠ "loaded" → tile_texture (mark_loaded tx t) = tx)
  ∧ (tile_state t = "loaded" → mark_loaded tx t = t).
Proof. unfold mark_loaded. case_decide; [done|]. by destruct (decide (tile_state t = "loaded")). Qed.

(** The world after two claims in a row. *)
Lemma loadTile_twice w r1 r2 t1 t2 :
  heap w !! r1 = Some t1 →
  heap w !! r2 = Some t2 →
  r1 ≠ r2 →
  is_anchor (this w) t1 = true →
  is_anchor (this w) t2 = true →
  let w' := run [call_loadTile r1; call_loadTile r2] w in
  tiles (this w')
  = <[String (tc_w (tile_coord t2)) := r2]>
      (<[String (tc_w (tile_coord t1)) := r1]> (tiles (this w)))
  ∧ heap w' !! r1 = Some (set_tile_buckets ∅ t1)
  ∧ heap w' !! r2 = Some (set_tile_buckets ∅ t2).
Proof.
  intros H1 H2 Hne Ha1 Ha2. cbv zeta. unfold run; cbn.
  rewrite (loadTile_anchor w r1 t1 H1 Ha1). cbn.
  erewrite (loadTile_anchor _ r2 t2).
  - cbn. split; [done|].
    rewrite lookup_alter_ne, lookup_alter_eq, H1 by done.
    by rewrite lookup_alter_eq, lookup_alter_ne, H2.
  - cbn. by rewrite lookup_alter_ne.
  - by rewrite <- Ha2.
Qed.

(** X14. Wrapped copies of the world: two tiles at the anchor whose wrap
    indices differ are both claimed, and one pass of [_prepareImage] makes
    both ['loaded'], with the texture of the source on each that was not
    ['loaded'] before. *)
Theorem wrapped_copies_both_loaded w r1 r2 t1 t2 img resize :
  heap w !! r1 = Some t1 →
  heap w !! r2 = Some t2 →
  is_anchor (this w) t1 = true →
  is_anchor (this w) t2 = true →
  String (tc_w (tile_coord t1)) ≠ String (tc_w (tile_coord t2)) →
  let w1 := run [call_loadTile r1; call_loadTile r2] w in
  let w2 := _prepareImage img resize w1 in
  claimed w1 r1 ∧ claimed w1 r2
  ∧ ∃ t1' t2',
      heap w2 !! r1 = Some t1' ∧ heap w2 !! r2 = Some t2'
      ∧ tile_state t1' = "loaded" ∧ tile_state t2' = "loaded"
      ∧ (tile_state t1 ≠ "loaded" → tile_texture t1' = texture (this w2))
      ∧ (tile_state t2 ≠ "loaded" → tile_texture t2' = texture (this w2)).
Proof.
  intros H1 H2 Ha1 Ha2 Hkeys.
  assert (Hne : r1 ≠ r2) by (intros ->; congruence).
  destruct (loadTile_twice w r1 r2 t1 t2 H1 H2 Hne Ha1 Ha2) as (Ht & Hh1 & Hh2).
  cbv zeta.
  set (w1 := run [call_loadTile r1; call_loadTile r2] w) in *.
  assert (Hc1 : claimed w1 r1).
  { exists (String (tc_w (tile_coord t1))).
    by rewrite Ht, lookup_insert_ne, lookup_insert_eq. }
  assert (Hc2 : claimed w1 r2).
  { exists (String (tc_w (tile_coord t2))). by rewrite Ht, lookup_insert_eq. }
  split; [done|]. split; [done|].
  pose proof (_prepareImage_claimed img resize w1 r1 Hc1) as Hp1.
  pose proof (_prepareImage_claimed img resize w1 r2 Hc2) as Hp2.
  cbv zeta in Hp1, Hp2. rewrite Hh1 in Hp1. rewrite Hh2 in Hp2.
  destruct (mark_loaded_state (texture (this (_prepareImage img resize w1)))
              (set_tile_buckets ∅ t1)) as (Hs1 & Htx1 & _).
  destruct (mark_loaded_state (texture (this (_prepareImage img resize w1)))
              (set_tile_buckets ∅ t2)) as (Hs2 & Htx2 & _).
  eexists _, _. split; [exact Hp1|]. split; [exact Hp2|].
  split; [exact Hs1|]. split; [exact Hs2|]. split; [exact Htx1|exact Htx2].
Qed.

(** X15. One tile per wrap index: a second tile claimed under the wrap
    index of a first takes its place in the claim table, and the first,
    unless it is claimed under another index, is no longer made
    ['loaded'] by [_prepareImage]. *)
Theorem second_claim_replaces_first w r1 r2 t1 t2 img resize :
  heap w !! r1 = Some t1 →
  heap w !! r2 = Some t2 →
  r1 ≠ r2 →
  is_anchor (this w) t1 = true →
  is_anchor (this w) t2 = true →
  String (tc_w (tile_coord t1)) = String (tc_w (tile_coord t2)) →
  ¬ claimed w r1 →
  let w1 := run [call_loadTile r1; call_loadTile r2] w in
  tiles (this w1) !! String (tc_w (tile_coord t1)) = Some r2
  ∧ ¬ claimed w1 r1
  ∧ heap (_prepareImage img resize w1) !! r1 = Some (set_tile_buckets ∅ t1).
Proof.
  intros H1 H2 Hne Ha1 Ha2 Hkeys Hnc.
  destruct (loadTile_twice w r1 r2 t1 t2 H1 H2 Hne Ha1 Ha2) as (Ht & Hh1 & _).
  cbv zeta.
  set (w1 := run [call_loadTile r1; call_loadTile r2] w) in *.
  rewrite <- Hkeys, insert_insert_eq in Ht.
  assert (Hnc1 : ¬ claimed w1 r1).
  { intros [k Hk]. rewrite Ht in Hk.
    destruct (decide (String (tc_w (tile_coord t1)) = k)) as [<-|Hk'].
    - rewrite lookup_insert_eq in Hk. congruence.
    - rewrite lookup_insert_ne in Hk by done. apply Hnc. by exists k. }
  split; [by rewrite Ht, lookup_insert_eq|]. split; [done|].
  by rewrite _prepareImage_unclaimed.
Qed.

(** X16. A tile that is not the anchor and is not in the claim table
    stays ['errored'] through [_prepareImage], with the texture it had. *)
Theorem errored_tile_stays_errored w r tile img resize :
  heap w !! r = Some tile →
  is_anchor (this w) tile = false →
  ¬ claimed w r →
  let w1 := (loadTile r w).1 in
  ¬ claimed w1 r
  ∧ heap (_prepareImage img resize w1) !! r
    = Some (set_tile_state "errored" tile).
Proof.
  intros Hr Ha Hnc. cbv zeta. rewrite (loadTile_other w r tile Hr Ha).
  cbn [fst].
  assert (Hnc1 : ¬ claimed (set_heap (alter (set_tile_state "errored") r) w) r)
    by done.
  split; [done|].
  rewrite _prepareImage_unclaimed by done. cbn.
  by rewrite lookup_alter_eq, Hr.
Qed.

(** X17. A stale claim wins over the rejection: a tile that is in the
    claim table, say from before the corners moved, and is requested
    again when it is no longer the anchor, is marked ['errored'] by
    [loadTile] and made ['loaded'] again, with the texture of the source,
    by the next [_prepareImage]. *)
Theorem stale_claim_reloaded w r tile img resize :
  heap w !! r = Some tile →
  is_anchor (this w) tile = false →
  claimed w r →
  let w1 := (loadTile r w).1 in
  let w2 := _prepareImage img resize w1 in
  heap w1 !! r = Some (set_tile_state "errored" tile)
  ∧ ∃ tile2,
      heap w2 !! r = Some tile2
      ∧ tile_state tile2 = "loaded"
      ∧ tile_texture tile2 = texture (this w2).
Proof.
  intros Hr Ha Hc. cbv zeta. rewrite (loadTile_other w r tile Hr Ha).
  cbn [fst].
  assert (Hh : heap (set_heap (alter (set_tile_state "errored") r) w) !! r
               = Some (set_tile_state "errored" tile)).
  { cbn. by rewrite lookup_alter_eq, Hr. }
  split; [exact Hh|].
  assert (Hc1 : claimed (set_heap (alter (set_tile_state "errored") r) w) r)
    by done.
  pose proof (_prepareImage_claimed img resize _ r Hc1) as Hp.
  cbv zeta in Hp. rewrite Hh in Hp. eexists. split; [exact Hp|].
  destruct (mark_loaded_state
              (texture (this (_prepareImage img resize
                                (set_heap (alter (set_tile_state "errored") r) w))))
              (set_tile_state "errored" tile)) as (Hs & Htx & _).
  split; [exact Hs|]. by apply Htx.
Qed.

(** X18. [loadTile] is idempotent: requesting a tile a second time,
    anchor or not, leaves the world the first request left, and reports
    success again. *)
Theorem loadTile_idempotent w r tile :
  heap w !! r = Some tile →
  loadTile r (loadTile r w).1 = ((loadTile r w).1, [None]).
Proof.
  intros Hr. destruct (is_anchor (this w) tile) eqn:Ha.
  - rewrite (loadTile_anchor w r tile Hr Ha). cbn [fst].
    erewrite (loadTile_anchor _ r (set_tile_buckets ∅ tile)).
    + f_equal. unfold set_heap, set_this, set_tiles; cbn. f_equal.
      * by rewrite insert_insert_eq.
      * rewrite alter_alter_eq. by apply alter_ext.
    + cbn. by rewrite lookup_alter_eq, Hr.
    + by rewrite <- Ha.
  - rewrite (loadTile_other w r tile Hr Ha). cbn [fst].
    erewrite (loadTile_other _ r (set_tile_state "errored" tile)).
    + f_equal. unfold set_heap; cbn. f_equal.
      rewrite alter_alter_eq. by apply alter_ext.
    + cbn. by rewrite lookup_alter_eq, Hr.
    + by rewrite <- Ha.
Qed.

(** ** Repeated [prepare()] *)

Lemma foldl_alter_id (f : @Tile number → @Tile number)
    (l : list (string * TileRef)) (h : gmap TileRef (@Tile number)) :
  (∀ t, f (f t) = f t) →
  (∀ r t, r ∈ l.*2 → h !! r = Some t → f t = t) →
  foldl (λ h (kv : string * TileRef), alter f kv.2 h) h l = h.
Proof.
  intros Hf Hid. apply map_eq. intros r.
  rewrite foldl_alter_lookup by done.
  destruct (decide (r ∈ l.*2)) as [Hin|Hin]; destruct (h !! r) eqn:Hr; cbn;
    try done.
  by rewrite (Hid r _ Hin Hr).
Qed.

(** A pass that has nothing left to do. *)
Lemma _prepareImage_settled img w :
  is_Some (boundsBuffer (this w)) →
  is_Some (boundsVAO (this w)) →
  textureLoaded (this w) = true →
  is_streaming img = false →
  (∀ r t, claimed w r → heap w !! r = Some t → tile_state t = "loaded") →
  _prepareImage img false w = w.
Proof.
  intros [b Hb] [v Hv] Hl Hs Hloaded. unfold _prepareImage.
  rewrite Hb; cbn. rewrite Hv; cbn. rewrite Hl; cbn. rewrite Hs.
  unfold set_heap. rewrite foldl_alter_id.
  - by destruct w.
  - apply mark_loaded_idemp.
  - intros r t Hin%claimed_map_to_list Hr.
    apply mark_loaded_state. by apply (Hloaded r).
Qed.

(** X19. For a static image [prepare()] is idempotent: whatever the first
    call had to build, a second call, and any number of calls after it,
    leaves the whole world (source, tiles, context, events) as the first
    left it. *)
Theorem prepare_idempotent_static w img map :
  size (tiles (this w)) ≠ 0 →
  image (this w) = Some img →
  map_ (this w) = Some map →
  image_class img = HTMLImageElement →
  ∃ w1,
    prepare w = Normal w1
    ∧ prepare w1 = Normal w1
    ∧ ∀ n, run (replicate n call_prepare) w1 = w1.
Proof.
  intros Hsize Himg Hmap Hclass.
  exists (_prepareImage img false w).
  split; [by apply prepare_runs with map|].
  destruct (_prepareImage_this img false w)
    as (_ & _ & _ & Htiles & Himg1 & Hmap1 & _ & _ & Hl1).
  destruct (_prepareImage_source img false w) as (_ & _ & _ & _ & _ & Hb & Hv).
  assert (Hs : is_streaming img = false).
  { destruct (is_streaming img) eqn:Hs; [|done].
    by apply is_streaming_class in Hs. }
  assert (Hfix : prepare (_prepareImage img false w)
                 = Normal (_prepareImage img false w)).
  { rewrite (prepare_runs _ img map); [|by rewrite Htiles|by rewrite Himg1
                                        |by rewrite Hmap1].
    f_equal. apply _prepareImage_settled; try done.
    intros r t [k Hk] Hr.
    assert (Hc : claimed w r) by (exists k; by rewrite <- Htiles).
    pose proof (_prepareImage_claimed img false w r Hc) as Hp.
    cbv zeta in Hp. rewrite Hr in Hp.
    destruct (heap w !! r) as [t0|]; [|done].
    injection Hp as ->. apply mark_loaded_state. }
  split; [done|].
  induction n as [|n IH]; [done|]. cbn. by rewrite Hfix.
Qed.

Lemma prepare_streaming w img map :
  size (tiles (this w)) ≠ 0 →
  image (this w) = Some img →
  map_ (this w) = Some map →
  textureLoaded (this w) = true →
  is_streaming img = true →
  let w' := world_of (prepare w) in
  texture_calls w'
  = texture_calls w
    ++ [bindTexture TEXTURE_2D (texture (this w));
        texSubImage2D TEXTURE_2D 0 0 0 RGBA UNSIGNED_BYTE img]
  ∧ tiles (this w') = tiles (this w)
  ∧ image (this w') = image (this w)
  ∧ map_ (this w') = map_ (this w)
  ∧ textureLoaded (this w') = true
  ∧ texture (this w') = texture (this w).
Proof.
  intros Hsize Himg Hmap Hl Hs. cbv zeta.
  rewrite (prepare_runs w img map Hsize Himg Hmap). cbn [world_of].
  destruct (_prepareImage_later img false w Hl) as (Htex & Hcalls).
  rewrite Hs in Hcalls.
  destruct (_prepareImage_this img false w)
    as (_ & _ & _ & Htiles & Himg1 & Hmap1 & _ & _ & Hl1).
  done.
Qed.

(** X20. A streaming raster (video, canvas, image data) is refreshed in
    place once per [prepare()]: [n] calls on a source that has its
    texture bind that texture and issue [texSubImage2D] [n] times, and
    nothing else on textures. *)
Theorem prepare_streaming_updates w img map n :
  size (tiles (this w)) ≠ 0 →
  image (this w) = Some img →
  map_ (this w) = Some map →
  textureLoaded (this w) = true →
  image_class img ≠ HTMLImageElement →
  texture_calls (run (replicate n call_prepare) w)
  = texture_calls w
    ++ concat (replicate n
                 [bindTexture TEXTURE_2D (texture (this w));
                  texSubImage2D TEXTURE_2D 0 0 0 RGBA UNSIGNED_BYTE img]).
Proof.
  intros Hsize Himg Hmap Hl Hs%is_streaming_class.
  revert w Hsize Himg Hmap Hl. induction n as [|n IH]; intros w Hsize Himg Hmap Hl.
  - cbn. by rewrite app_nil_r.
  - destruct (prepare_streaming w img map Hsize Himg Hmap Hl Hs)
      as (Hcalls & Htiles & Himg1 & Hmap1 & Hl1 & Htex).
    change (run (replicate (S n) call_prepare) w)
      with (run (replicate n call_prepare) (world_of (prepare w))).
    rewrite IH; [|by rewrite Htiles|by rewrite Himg1|by rewrite Hmap1|done].
    rewrite Hcalls, Htex. cbn [concat]. by rewrite <- !app_assoc.
Qed.

(** ** Successive changes of the corners *)

(** X21. The last change of the corners wins: of two calls of
    [setCoordinates] in a row only the first finds a vertex buffer to
    destroy, each fires one [data]/content event, and the corners, the
    anchor and the vertex records left are those of the second call. *)
Theorem setCoordinates_last_wins w map b corners1 corners2 :
  map_ (this w) = Some map →
  boundsBuffer (this w) = Some b →
  ∃ w1 w2,
    setCoordinates corners1 w = Normal w1
    ∧ setCoordinates corners2 w1 = Normal w2
    ∧ gl_calls (gl w2) = gl_calls (gl w) ++ [VertexBuffer_destroy b]
    ∧ fired w2 = fired w ++ [ev_content; ev_content]
    ∧ coordinates (this w2) = Some corners2
    ∧ coord (this w2) = Some (anchor_tile map corners2)
    ∧ minzoom (this w2) = zoom (anchor map corners2)
    ∧ maxzoom (this w2) = zoom (anchor map corners2)
    ∧ _boundsArray (this w2) = quad_vertices map corners2.
Proof.
  intros Hmap Hb.
  set (w1 := world_of (setCoordinates corners1 w)).
  destruct (setCoordinates_frame w corners1)
    as (_ & _ & _ & _ & _ & Hmap1 & _).
  fold w1 in Hmap1. rewrite Hmap in Hmap1.
  destruct (setCoordinates_buffer w corners1 map Hmap) as (Hb1 & Hgl1).
  fold w1 in Hb1, Hgl1. rewrite Hb in Hgl1.
  destruct (setCoordinates_events w corners1 map Hmap) as (Hf1 & _).
  fold w1 in Hf1.
  destruct (setCoordinates_buffer w1 corners2 map Hmap1) as (_ & Hgl2).
  rewrite Hb1 in Hgl2.
  destruct (setCoordinates_events w1 corners2 map Hmap1) as (Hf2 & _).
  destruct (setCoordinates_anchor w1 corners2 map Hmap1)
    as (_ & Hcoord & Hmin & Hmax).
  destruct (setCoordinates_frame w1 corners2)
    as (_ & _ & _ & _ & _ & _ & _ & Hcs).
  exists w1, (world_of (setCoordinates corners2 w1)).
  split; [by apply setCoordinates_returns with map|].
  split; [by apply setCoordinates_returns with map|].
  split; [by rewrite Hgl2, Hgl1|].
  split; [by rewrite Hf2, Hf1, <- app_assoc|].
  repeat (split; [done|]). by apply setCoordinates_quad.
Qed.

End Lifecycle_results.

(** * The life of the example source *)

Lemma onAdd_then_image_witness :
  coordinates (this example_world) = Some example_coordinates
  ∧ fired example_loaded = [ev_dataloading; ev_content; ev_metadata]
  ∧ requested example_loaded = [JSString example_url]
  ∧ coord (this example_loaded) = Some (anchor_tile flat_map example_coordinates)
  ∧ _boundsArray (this example_loaded)
    = quad_vertices flat_map example_coordinates.
Proof.
  destruct (onAdd_then_image example_world flat_map foo_png example_coordinates
              eq_refl)
    as (Hf & Hr & _ & _ & _ & _ & Hc & _ & _ & Hb & _).
  split; [reflexivity|]. split; [exact Hf|]. split; [exact Hr|].
  split; [exact Hc|exact Hb].
Defined.

Lemma image_without_coordinates_witness :
  bare_options !! "coordinates" = None
  ∧ getImage_callback None (Some foo_png)
      (run [call_onAdd flat_map] (created "bare" bare_options 0%nat 0%nat ∅))
    = Throw TypeError
        (set_this (set_image (Some foo_png))
           (run [call_onAdd flat_map]
              (created "bare" bare_options 0%nat 0%nat ∅))).
Proof.
  split; [reflexivity|].
  apply (image_without_coordinates "bare" bare_options 0%nat 0%nat ∅ flat_map
           foo_png).
  reflexivity.
Defined.

Lemma setCoordinates_before_onAdd_witness :
  map_ (this example_world) = None
  ∧ ∃ w1,
      setCoordinates update_coordinates example_world = Throw TypeError w1
      ∧ coord (this (run (added flat_map foo_png) w1))
        = Some (mkTileCoord 14 4708 4625 0)%Q.
Proof.
  split; [reflexivity|].
  destruct (setCoordinates_before_onAdd example_world update_coordinates
              flat_map foo_png eq_refl)
    as (w1 & Hthrow & _ & _ & _ & _ & Hcoord & _).
  exists w1. split; [exact Hthrow|exact Hcoord].
Defined.



Lemma wrapped_copies_both_loaded_witness :
  let w1 := run [call_loadTile 0%nat; call_loadTile 2%nat] anchored_twins in
  claimed w1 0%nat ∧ claimed w1 2%nat
  ∧ ∃ t1' t2',
      heap (_prepareImage foo_png false w1) !! 0%nat = Some t1'
      ∧ heap (_prepareImage foo_png false w1) !! 2%nat = Some t2'
      ∧ tile_state t1' = "loaded" ∧ tile_state t2' = "loaded".
Proof.
  assert (Ha1 : is_anchor (this anchored_twins) (tile_at 5 10 12 0) = true)
    by reflexivity.
  assert (Ha2 : is_anchor (this anchored_twins) (tile_at 5 10 12 1) = true)
    by reflexivity.
  assert (Hk : String (tc_w (tile_coord (tile_at 5 10 12 0)))
               ≠ String (tc_w (tile_coord (tile_at 5 10 12 1))))
    by (vm_compute; discriminate).
  destruct (wrapped_copies_both_loaded anchored_twins 0%nat 2%nat
              (tile_at 5 10 12 0) (tile_at 5 10 12 1) foo_png false
              eq_refl eq_refl Ha1 Ha2 Hk)
    as (Hc1 & Hc2 & t1' & t2' & H1 & H2 & Hs1 & Hs2 & _).
  split; [exact Hc1|]. split; [exact Hc2|]. exists t1', t2'.
  split; [exact H1|]. split; [exact H2|]. split; [exact Hs1|exact Hs2].
Defined.

Lemma second_claim_replaces_first_witness :
  let w1 := run [call_loadTile 0%nat; call_loadTile 1%nat] anchored_twins in
  tiles (this w1) !! "0" = Some 1%nat
  ∧ ¬ claimed w1 0%nat
  ∧ heap (_prepareImage foo_png false w1) !! 0%nat
    = Some (set_tile_buckets ∅ (tile_at 5 10 12 0)).
Proof.
  assert (Ha : is_anchor (this anchored_twins) (tile_at 5 10 12 0) = true)
    by reflexivity.
  assert (Hne : 0%nat ≠ 1%nat) by discriminate.
  assert (Hnc : ¬ claimed anchored_twins 0%nat).
  { intros [k Hk]. cbn in Hk. by rewrite lookup_empty in Hk. }
  exact (second_claim_replaces_first anchored_twins 0%nat 1%nat
           (tile_at 5 10 12 0) (tile_at 5 10 12 0) foo_png false
           eq_refl eq_refl Hne Ha Ha eq_refl Hnc).
Defined.

Lemma errored_tile_stays_errored_witness :
  heap anchored_5_10_12 !! 1%nat = Some (tile_at 5 10 13 0)
  ∧ heap (_prepareImage foo_png false (loadTile 1%nat anchored_5_10_12).1)
      !! 1%nat
    = Some (set_tile_state "errored" (tile_at 5 10 13 0)).
Proof.
  assert (Ha : is_anchor (this anchored_5_10_12) (tile_at 5 10 13 0) = false)
    by reflexivity.
  assert (Hnc : ¬ claimed anchored_5_10_12 1%nat).
  { intros [k Hk]. cbn in Hk. by rewrite lookup_empty in Hk. }
  split; [reflexivity|].
  apply (errored_tile_stays_errored anchored_5_10_12 1%nat (tile_at 5 10 13 0)
           foo_png false eq_refl Ha Hnc).
Defined.

Lemma stale_claim_reloaded_witness :
  coord (this example_moved) = Some (mkTileCoord 14 4708 4625 0)%Q
  ∧ (tile_coord <$> heap example_moved !! 0%nat)
    = Some (mkTileCoord 14 4709 4626 0)%Q
  ∧ ∃ tile2,
      heap (_prepareImage foo_png false (loadTile 0%nat example_moved).1)
        !! 0%nat = Some tile2
      ∧ tile_state tile2 = "loaded".
Proof.
  split; [by vm_compute|]. split; [by vm_compute|].
  assert (Hh : heap example_moved !! 0%nat
               = Some (mkTile (mkTileCoord 14 4709 4626 0)%Q "loaded"
                         (Some 1%nat) ∅))
    by (by vm_compute).
  assert (Ha : is_anchor (this example_moved)
                 (mkTile (mkTileCoord 14 4709 4626 0)%Q "loaded" (Some 1%nat) ∅)
               = false)
    by (by vm_compute).
  assert (Hc : claimed example_moved 0%nat).
  { exists "0". by vm_compute. }
  destruct (stale_claim_reloaded example_moved 0%nat _ foo_png false Hh Ha Hc)
    as (_ & tile2 & H2 & Hs & _).
  exists tile2. split; [exact H2|exact Hs].
Defined.

Lemma loadTile_idempotent_witness :
  heap anchored_5_10_12 !! 0%nat = Some (tile_at 5 10 12 0)
  ∧ loadTile 0%nat (loadTile 0%nat anchored_5_10_12).1
    = ((loadTile 0%nat anchored_5_10_12).1, [None]).
Proof.
  split; [reflexivity|].
  apply (loadTile_idempotent anchored_5_10_12 0%nat (tile_at 5 10 12 0)).
  reflexivity.
Defined.

Lemma prepare_idempotent_static_witness :
  ∃ w1,
    prepare example_claimed = Normal w1
    ∧ prepare w1 = Normal w1
    ∧ ∀ n, run (replicate n call_prepare) w1 = w1.
Proof.
  apply (prepare_idempotent_static example_claimed foo_png flat_map).
  - vm_compute. discriminate.
  - reflexivity.
  - reflexivity.
  - reflexivity.
Defined.

Lemma prepare_streaming_updates_witness :
  texture_calls (run (replicate 3 call_prepare) example_video)
  = texture_calls example_video
    ++ concat (replicate 3
                 [bindTexture TEXTURE_2D (texture (this example_video));
                  texSubImage2D TEXTURE_2D 0 0 0 RGBA UNSIGNED_BYTE clip]).
Proof.
  apply (prepare_streaming_updates example_video clip flat_map 3).
  - vm_compute. discriminate.
  - reflexivity.
  - reflexivity.
  - reflexivity.
  - discriminate.
Defined.

Lemma setCoordinates_last_wins_witness :
  boundsBuffer (this example_prepared) = Some 0%nat
  ∧ ∃ w1 w2,
      setCoordinates update_coordinates example_prepared = Normal w1
      ∧ setCoordinates example_coordinates w1 = Normal w2
      ∧ gl_calls (gl w2)
        = gl_calls (gl example_prepared) ++ [VertexBuffer_destroy 0%nat]
      ∧ coord (this w2) = Some (anchor_tile flat_map example_coordinates).
Proof.
  split; [reflexivity|].
  destruct (setCoordinates_last_wins example_prepared flat_map 0%nat
              update_coordinates example_coordinates eq_refl eq_refl)
    as (w1 & w2 & H1 & H2 & Hgl & _ & _ & Hc & _).
  exists w1, w2. split; [exact H1|]. split; [exact H2|].
  split; [exact Hgl|exact Hc].
Defined.
